(** * Bulk query runner of the recipe chatbot (scripts/bulk_test.py)

    A shallow embedding of [read_queries], [process_query], the
    thread-pool fan-out of [run_bulk_test] and [write_results], with the
    properties the specification states about them, and of the generator
    of synthetic queries (scripts/generate_tuples.py) that writes the
    files the runner reads. *)

From Stdlib Require Import ZArith Ascii String Permutation Lia.
From stdpp Require Import base option list gmap strings pretty.

Local Open Scope string_scope.
Local Open Scope list_scope.
Local Open Scope Z_scope.

(** ** Python values and control flow *)

(** A raised Python exception.  [except Exception] catches instances of
    [Exception] only; [SystemExit], [KeyboardInterrupt], [GeneratorExit]
    and [asyncio.CancelledError] derive from [BaseException] directly.
    [exc_repr] is the text [repr(e)] yields. *)
Inductive py_exception : Type :=
  | ExceptionInstance (exc_repr : string)
  | BaseExceptionOnly (exc_repr : string).

Definition is_Exception (e : py_exception) : bool :=
  match e with
  | ExceptionInstance _ => true
  | BaseExceptionOnly _ => false
  end.

Definition repr (e : py_exception) : string :=
  match e with
  | ExceptionInstance r => r
  | BaseExceptionOnly r => r
  end.

(** The outcome of evaluating a Python expression or block. *)
Inductive outcome (A : Type) : Type :=
  | Returns (a : A)
  | Raises (e : py_exception).
Arguments Returns {A} a.
Arguments Raises {A} e.

#[global] Instance outcome_bind : MBind outcome := fun A B k m =>
  match m with
  | Returns a => k a
  | Raises e => Raises e
  end.

(** [try: body except Exception as e: handler(e)] *)
Definition try_except_Exception {A : Type}
    (body : outcome A) (handler : py_exception -> outcome A) : outcome A :=
  match body with
  | Returns a => Returns a
  | Raises e => if is_Exception e then handler e else Raises e
  end.

Definition IndexError : py_exception :=
  ExceptionInstance "IndexError('list index out of range')".

Definition KeyError (k : string) : py_exception :=
  ExceptionInstance ("KeyError('" +:+ k +:+ "')").

Definition ValueError (msg : string) : py_exception :=
  ExceptionInstance ("ValueError('" +:+ msg +:+ "')").

(** [bool(s)] of a string: the empty string is falsy. *)
Definition str_truthy (s : string) : bool :=
  match s with
  | EmptyString => false
  | String _ _ => true
  end.

(** [bool(l)] of a list: the empty list is falsy. *)
Definition list_truthy {A : Type} (l : list A) : bool :=
  match l with
  | [] => false
  | _ :: _ => true
  end.

(** [l[-1]]: the last item, [IndexError] on an empty list. *)
Definition getitem_last {A : Type} (l : list A) : outcome A :=
  match last l with
  | Some a => Returns a
  | None => Raises IndexError
  end.

(** ** Data model *)

(** A row of [csv.DictReader], typed [dict[str, str]] by [read_queries].
    A column the row is too short for is filled with [None]; [row.get]
    gives [None] for it as for an absent key. *)
Abbreviation row := (gmap string string).

(** [d.get(k)]: [None] when the key is absent. *)
Definition dict_get (d : row) (k : string) : option string := d !! k.

(** [d[k]]: [KeyError] when the key is absent. *)
Definition dict_getitem (d : row) (k : string) : outcome string :=
  match d !! k with
  | Some v => Returns v
  | None => Raises (KeyError k)
  end.

(** [bool(d.get(k))]: [None] and the empty string are falsy. *)
Definition get_truthy (d : row) (k : string) : bool :=
  match dict_get d k with
  | Some v => str_truthy v
  | None => false
  end.

(** One turn of a conversation, [{"role": ..., "content": ...}]. *)
Record turn : Type := Turn { role : string; content : string }.

Definition conversation : Type := list turn.

(** The tuple [(id, query, response)] that [process_query] returns. *)
Definition ResultRecord : Type := (string * string * string)%type.

Definition result_id (r : ResultRecord) : string := r.1.1.
Definition result_query (r : ResultRecord) : string := r.1.2.
Definition result_response (r : ResultRecord) : string := r.2.

Definition no_reply : string := "Error: No assistant reply found".

(** ** Query Source Reader *)

(** [read_queries], over the rows the [DictReader] yields:
    [[row for row in reader if row.get("id") and row.get("query")]]. *)
Definition read_queries (reader : list row) : list row :=
  List.filter (fun row => get_truthy row "id" && get_truthy row "query") reader.

(** ** Dispatch of one query *)

Section Dispatch.

(** The state the agent service and the network are in. *)
Context {world : Type}.

(** The Agent Client Adapter, [backend.utils.get_agent_response], is
    imported from outside these sources and is a parameter here: a
    synchronous call that takes a conversation and returns a
    conversation or raises; what it answers may depend on, and change,
    the state of the service. *)
Variable get_agent_response : conversation -> world -> outcome conversation * world.

(** The body of the [try] block once the adapter has answered. *)
Definition classify (query_id query : string)
    (updated_history : conversation) : outcome ResultRecord :=
  cond ← (if list_truthy updated_history
          then (t ← getitem_last updated_history;
                Returns (String.eqb (role t) "assistant"))
          else Returns false);
  response ← (if cond : bool
              then (t ← getitem_last updated_history; Returns (content t))
              else Returns no_reply);
  Returns (query_id, query, response).

Definition process_query (query_id query : string) (w : world)
    : outcome ResultRecord * world :=
  let initial_messages := [Turn "user" query] in
  let '(answer, w') := get_agent_response initial_messages w in
  (try_except_Exception
     (updated_history ← answer; classify query_id query updated_history)
     (fun e => Returns (query_id, query, "Error: " +:+ repr e)),
   w').

End Dispatch.

(** ** The thread pool of [concurrent.futures] *)

Record executor : Type := Executor { max_workers : Z }.

(** [ThreadPoolExecutor(max_workers=n)] refuses a pool without workers. *)
Definition ThreadPoolExecutor (n : Z) : outcome executor :=
  if n <=? 0
  then Raises (ValueError "max_workers must be greater than 0")
  else Returns (Executor n).

(** A future holds nothing until a worker has run its task; then it
    holds what the task returned or raised. *)
Definition future (A : Type) : Type := option (outcome A).

(** [Executor.map] hands the results out in the order of submission:
    it waits for each future in turn and re-raises what its task raised.
    [None]: a future is never completed and the caller waits forever. *)
Fixpoint result_iterator {A : Type} (futures : list (future A)) : option (outcome (list A)) :=
  match futures with
  | [] => Some (Returns [])
  | None :: _ => None
  | Some (Raises e) :: _ => Some (Raises e)
  | Some (Returns a) :: rest =>
      match result_iterator rest with
      | Some (Returns results) => Some (Returns (a :: results))
      | other => other
      end
  end.

Section Pool.

Context {world A B : Type}.
Variable fn : A -> world -> outcome B * world.

(** The workers take the submitted tasks and complete them in an order
    of the scheduler's choosing: [schedule] lists the positions of the
    tasks in the order their calls take effect.  The future of a task
    is the one created for its position at submission. *)
Fixpoint run_workers (schedule : list nat) (items : list A)
    (futures : list (future B)) (w : world) : list (future B) * world :=
  match schedule with
  | [] => (futures, w)
  | i :: schedule' =>
      match items !! i with
      | Some item =>
          let '(result, w') := fn item w in
          run_workers schedule' items (<[i := Some result]> futures) w'
      | None => run_workers schedule' items futures w
      end
  end.

(** The state in which the task at position [i] runs, if it does. *)
Fixpoint state_at (schedule : list nat) (items : list A) (w : world)
    (i : nat) : option world :=
  match schedule with
  | [] => None
  | j :: schedule' =>
      match items !! j with
      | Some item =>
          if decide (j = i) then Some w
          else state_at schedule' items (fn item w).2 i
      | None => state_at schedule' items w i
      end
  end.

(** [list(executor.map(fn, items))] *)
Definition executor_map (pool : executor) (schedule : list nat)
    (items : list A) (w : world) : option (outcome (list B)) * world :=
  let submitted := replicate (length items) None in
  let '(futures, w') := run_workers schedule items submitted w in
  (result_iterator futures, w').

End Pool.

(** ** Bulk Query Runner *)

Section Runner.

Context {world : Type}.
Variable get_agent_response : conversation -> world -> outcome conversation * world.

(** [lambda item: process_query(item["id"], item["query"])] *)
Definition dispatch (item : row) (w : world) : outcome ResultRecord * world :=
  match dict_getitem item "id" with
  | Raises e => (Raises e, w)
  | Returns query_id =>
      match dict_getitem item "query" with
      | Raises e => (Raises e, w)
      | Returns query => process_query get_agent_response query_id query w
      end
  end.

(** The fan-out of [run_bulk_test]: from the worker count to the list
    of results. *)
Definition run (queries : list row) (num_workers : Z) (schedule : list nat)
    (w : world) : option (outcome (list ResultRecord)) * world :=
  let actual_workers := Z.min num_workers (Z.of_nat (length queries)) in
  match ThreadPoolExecutor actual_workers with
  | Raises e => (Some (Raises e), w)
  | Returns pool => executor_map dispatch pool schedule queries w
  end.

End Runner.

(** ** Result Sink: the structured-record artifact *)

(** [sep.join(parts)] *)
Fixpoint str_join (sep : string) (parts : list string) : string :=
  match parts with
  | [] => ""
  | [part] => part
  | part :: rest => part +:+ sep +:+ str_join sep rest
  end.

Definition hex_digit (n : N) : ascii :=
  if (n <? 10)%N then ascii_of_N (48 + n) else ascii_of_N (87 + n).

(** ['\\u{0:04x}'.format(n)] for a code below 256. *)
Definition u_escape (n : N) : string :=
  String "\" (String "u" (String "0" (String "0"
    (String (hex_digit (n / 16)) (String (hex_digit (n mod 16)) ""))))).

(** The replacement of one character by [json.encoder.py_encode_basestring],
    the encoder of strings under [ensure_ascii=False]: the quote, the
    backslash and the control characters below U+0020 are escaped, all
    other characters are written as they are. *)
Definition json_escape (c : ascii) : string :=
  let n := N_of_ascii c in
  if (n =? 34)%N then String "\" (String "034" "")
  else if (n =? 92)%N then String "\" (String "\" "")
  else if (n =? 10)%N then String "\" (String "n" "")
  else if (n =? 13)%N then String "\" (String "r" "")
  else if (n =? 9)%N then String "\" (String "t" "")
  else if (n =? 8)%N then String "\" (String "b" "")
  else if (n =? 12)%N then String "\" (String "f" "")
  else if (n <? 32)%N then u_escape n
  else String c "".

Fixpoint json_escape_all (s : string) : string :=
  match s with
  | EmptyString => ""
  | String c s' => json_escape c +:+ json_escape_all s'
  end.

Definition encode_basestring (s : string) : string :=
  String "034" (json_escape_all s +:+ String "034" "").

(** ['\n' + ' ' * (indent * level)] with [indent=2] *)
Definition newline_indent (level : nat) : string :=
  String (ascii_of_N 10) (string_of_list_ascii (replicate (2 * level) " "%char)).

(** A [dict[str, str]] with its keys in insertion order, the order in
    which [json.dump] writes them. *)
Definition ordered_dict : Type := list (string * string).

(** [json.dump(d, f, indent=2, ensure_ascii=False)] for a dict of strings
    at nesting depth [level]. *)
Definition json_dump_dict (level : nat) (d : ordered_dict) : string :=
  match d with
  | [] => "{}"
  | _ =>
      "{" +:+ newline_indent (S level)
      +:+ str_join ("," +:+ newline_indent (S level))
            (map (fun kv => encode_basestring kv.1 +:+ ": " +:+ encode_basestring kv.2) d)
      +:+ newline_indent level +:+ "}"
  end.

(** [json.dump(l, f, indent=2, ensure_ascii=False)] for a list of dicts
    of strings. *)
Definition json_dump (l : list ordered_dict) : string :=
  match l with
  | [] => "[]"
  | _ =>
      "[" +:+ newline_indent 1
      +:+ str_join ("," +:+ newline_indent 1) (map (json_dump_dict 1) l)
      +:+ newline_indent 0 +:+ "]"
  end.

(** [[{"id": result[0], "query": result[1], "response": result[2]}
      for result in results]] *)
Definition json_data (results : list ResultRecord) : list ordered_dict :=
  map (fun result : ResultRecord =>
         [("id", result.1.1); ("query", result.1.2); ("response", result.2)])
      results.

(** ** Reading the structured-record artifact back *)

(** A reader for the JSON texts of the shape the sink writes: an array
    of objects whose members are strings.  It follows the JSON grammar
    for white space, punctuation and string escapes; on the texts it
    accepts it returns what [json.load] returns, each object as a dict
    in which a repeated key keeps its last value. *)
Inductive token : Type :=
  | LBracket | RBracket | LBrace | RBrace | Comma | Colon
  | Str (s : string).

Inductive lex_mode : Type :=
  | Between
  | InString (acc : string)
  | Escaped (acc : string)
  | Unicode (acc : string) (digits : list N).

Definition hex_value (c : ascii) : option N :=
  let n := N_of_ascii c in
  if (48 <=? n)%N && (n <=? 57)%N then Some (n - 48)%N
  else if (97 <=? n)%N && (n <=? 102)%N then Some (n - 87)%N
  else if (65 <=? n)%N && (n <=? 70)%N then Some (n - 55)%N
  else None.

Definition char (n : N) : string := String (ascii_of_N n) "".

(** The UTF-8 bytes of a code point of the basic plane; a surrogate has
    none and is refused. *)
Definition utf8 (code : N) : option string :=
  if (code <? 128)%N then Some (char code)
  else if (code <? 2048)%N then
    Some (char (192 + code / 64) +:+ char (128 + code mod 64))
  else if (55296 <=? code)%N && (code <? 57344)%N then None
  else Some (char (224 + code / 4096) +:+ char (128 + (code / 64) mod 64)
             +:+ char (128 + code mod 64)).

Definition lex_step (st : list token * lex_mode) (c : ascii)
    : option (list token * lex_mode) :=
  let '(tokens, mode) := st in
  let n := N_of_ascii c in
  match mode with
  | Between =>
      if (n =? 32)%N || (n =? 9)%N || (n =? 10)%N || (n =? 13)%N then Some (tokens, Between)
      else if (n =? 91)%N then Some (tokens ++ [LBracket], Between)
      else if (n =? 93)%N then Some (tokens ++ [RBracket], Between)
      else if (n =? 123)%N then Some (tokens ++ [LBrace], Between)
      else if (n =? 125)%N then Some (tokens ++ [RBrace], Between)
      else if (n =? 44)%N then Some (tokens ++ [Comma], Between)
      else if (n =? 58)%N then Some (tokens ++ [Colon], Between)
      else if (n =? 34)%N then Some (tokens, InString "")
      else None
  | InString acc =>
      if (n =? 34)%N then Some (tokens ++ [Str acc], Between)
      else if (n =? 92)%N then Some (tokens, Escaped acc)
      else if (n <? 32)%N then None
      else Some (tokens, InString (acc +:+ String c ""))
  | Escaped acc =>
      if (n =? 34)%N || (n =? 92)%N || (n =? 47)%N
      then Some (tokens, InString (acc +:+ String c ""))
      else if (n =? 98)%N then Some (tokens, InString (acc +:+ char 8))
      else if (n =? 102)%N then Some (tokens, InString (acc +:+ char 12))
      else if (n =? 110)%N then Some (tokens, InString (acc +:+ char 10))
      else if (n =? 114)%N then Some (tokens, InString (acc +:+ char 13))
      else if (n =? 116)%N then Some (tokens, InString (acc +:+ char 9))
      else if (n =? 117)%N then Some (tokens, Unicode acc [])
      else None
  | Unicode acc digits =>
      match hex_value c with
      | None => None
      | Some d =>
          match digits with
          | [d1; d2; d3] =>
              match utf8 (((d1 * 16 + d2) * 16 + d3) * 16 + d)%N with
              | Some bytes => Some (tokens, InString (acc +:+ bytes))
              | None => None
              end
          | _ => Some (tokens, Unicode acc (digits ++ [d]))
          end
      end
  end.

Fixpoint lex (st : option (list token * lex_mode)) (text : string)
    : option (list token * lex_mode) :=
  match text with
  | EmptyString => st
  | String c text' => lex (st ≫= fun st => lex_step st c) text'
  end.

Definition tokenize (text : string) : option (list token) :=
  match lex (Some ([], Between)) text with
  | Some (tokens, Between) => Some tokens
  | _ => None
  end.

Inductive parse_state : Type :=
  | AtStart
  | ArrayOpen
  | ObjectOpen (done : list row) (members : row)
  | AfterKey (done : list row) (members : row) (key : string)
  | AfterColon (done : list row) (members : row) (key : string)
  | AfterValue (done : list row) (members : row)
  | AfterMemberComma (done : list row) (members : row)
  | ObjectClosed (done : list row)
  | AfterItemComma (done : list row)
  | AtEnd (done : list row).

Definition parse_step (st : parse_state) (t : token) : option parse_state :=
  match st, t with
  | AtStart, LBracket => Some ArrayOpen
  | ArrayOpen, LBrace => Some (ObjectOpen [] ∅)
  | ArrayOpen, RBracket => Some (AtEnd [])
  | ObjectOpen done members, Str key => Some (AfterKey done members key)
  | ObjectOpen done members, RBrace => Some (ObjectClosed (done ++ [members]))
  | AfterKey done members key, Colon => Some (AfterColon done members key)
  | AfterColon done members key, Str value => Some (AfterValue done (<[key := value]> members))
  | AfterValue done members, Comma => Some (AfterMemberComma done members)
  | AfterValue done members, RBrace => Some (ObjectClosed (done ++ [members]))
  | AfterMemberComma done members, Str key => Some (AfterKey done members key)
  | ObjectClosed done, Comma => Some (AfterItemComma done)
  | ObjectClosed done, RBracket => Some (AtEnd done)
  | AfterItemComma done, LBrace => Some (ObjectOpen done ∅)
  | _, _ => None
  end.

Definition parse (st : option parse_state) (tokens : list token) : option parse_state :=
  foldl (fun st t => st ≫= fun st => parse_step st t) st tokens.

(** [json.load(f)] on such a text. *)
Definition json_load (text : string) : option (list row) :=
  tokens ← tokenize text;
  match parse (Some AtStart) tokens with
  | Some (AtEnd done) => Some done
  | _ => None
  end.

(** [(d["id"], d["query"], d["response"])] *)
Definition triple_of (d : row) : option ResultRecord :=
  i ← d !! "id"; q ← d !! "query"; r ← d !! "response"; Some (i, q, r).

Definition read_results (text : string) : option (list ResultRecord) :=
  dicts ← json_load text; mapM triple_of dicts.

(** *** The tokens of a written text *)

(** The tokens a text written by [json.dump] is made of, for the proof
    that the reader gets them back. *)
Fixpoint join_tokens (parts : list (list token)) : list token :=
  match parts with
  | [] => []
  | [part] => part
  | part :: rest => part ++ Comma :: join_tokens rest
  end.

Definition member_tokens (kv : string * string) : list token :=
  [Str kv.1; Colon; Str kv.2].

Definition dict_tokens (d : ordered_dict) : list token :=
  LBrace :: join_tokens (map member_tokens d) ++ [RBrace].

Definition list_tokens (l : list ordered_dict) : list token :=
  LBracket :: join_tokens (map dict_tokens l) ++ [RBracket].

(** The entry of [json_data] for one result. *)
Definition dict_data (result : ResultRecord) : ordered_dict :=
  [("id", result.1.1); ("query", result.1.2); ("response", result.2)].

(** The dict [json.load] builds for the object of one result. *)
Definition dict_of (result : ResultRecord) : row :=
  <["response" := result.2]> (<["query" := result.1.2]> (<["id" := result.1.1]> ∅)).

(** ** Paths and files *)

(** A [pathlib] path by its components; the last one is its name. *)
Definition Path : Type := list string.

Definition path_name (p : Path) : string := default "" (last p).

Definition path_parent (p : Path) : Path := removelast p.

(** [name.rpartition('.')]: the text before and after the last dot. *)
Fixpoint rsplit_dot (name : string) : option (string * string) :=
  match name with
  | EmptyString => None
  | String c name' =>
      match rsplit_dot name' with
      | Some (before, after) => Some (String c before, after)
      | None => if Ascii.eqb c "." then Some ("", name') else None
      end
  end.

(** [PurePath.suffix]: the final component from its last dot on, unless
    that dot starts or ends the name. *)
Definition suffix_of (name : string) : string :=
  match rsplit_dot name with
  | Some (before, after) =>
      if str_truthy before && str_truthy after then String "." after else ""
  | None => ""
  end.

(** [name[:-len(suffix)]] *)
Definition stem_of (name : string) : string :=
  match rsplit_dot name with
  | Some (before, after) =>
      if str_truthy before && str_truthy after then before else name
  | None => name
  end.

Fixpoint str_contains (c : ascii) (s : string) : bool :=
  match s with
  | EmptyString => false
  | String c' s' => Ascii.eqb c c' || str_contains c s'
  end.

Definition valid_suffix (suffix : string) : bool :=
  negb (str_contains "/" suffix)
  && negb (str_truthy suffix && negb (String.prefix "." suffix))
  && negb (String.eqb suffix ".").

(** [PurePath.with_suffix] *)
Definition with_suffix (p : Path) (suffix : string) : outcome Path :=
  if negb (valid_suffix suffix) then Raises (ValueError "Invalid suffix")
  else if negb (str_truthy (path_name p)) then Raises (ValueError "path has an empty name")
  else Returns (path_parent p ++ [stem_of (path_name p) +:+ suffix]).

(** The directories and the files of the disk, each file with the
    bytes it holds; two paths are the same when they are spelt the same.
    Faults of the operating system other than those below (permissions,
    a full disk) are outside the model. *)
Record filesystem : Type := Filesystem {
  directories : gset Path;
  files : gmap Path string
}.

Definition IsADirectoryError : py_exception :=
  ExceptionInstance "IsADirectoryError(21, 'Is a directory')".

Definition FileExistsError : py_exception :=
  ExceptionInstance "FileExistsError(17, 'File exists')".

Definition NotADirectoryError : py_exception :=
  ExceptionInstance "NotADirectoryError(20, 'Not a directory')".

(** [p.is_dir()]: the root is a directory, as is a member of
    [directories] and every path above one. *)
Definition is_dir (fs : filesystem) (p : Path) : Prop :=
  p = [] \/ set_Exists (fun q => p `prefix_of` q) (directories fs).

#[global] Instance is_dir_dec fs p : Decision (is_dir fs p).
Proof. unfold is_dir. apply _. Defined.

(** [p.is_file()]: a path that holds a text and is no directory. *)
Definition is_file (fs : filesystem) (p : Path) : Prop :=
  is_Some (files fs !! p) /\ ~ is_dir fs p.

#[global] Instance is_file_dec fs p : Decision (is_file fs p).
Proof. unfold is_file. apply _. Defined.

(** The paths strictly above [d], from the top down. *)
Definition path_parents (d : Path) : list Path :=
  map (fun n => take n d) (seq 1 (length d - 1)).

(** What stops [d.mkdir(parents=True, exist_ok=True)].  [os.mkdir]
    fails with [FileExistsError] when [d] is there already, which
    [exist_ok] lets pass for a directory and not for a regular file; it
    fails with [NotADirectoryError] when a path above [d] is a regular
    file.  A path above [d] that is missing is made first. *)
Definition mkdir_fault (d : Path) (fs : filesystem) : option py_exception :=
  if decide (is_file fs d) then Some FileExistsError
  else if decide (Exists (is_file fs) (path_parents d)) then Some NotADirectoryError
  else None.

(** The disk once [d] and the paths above it are directories. *)
Definition mkdir_parents (d : Path) (fs : filesystem) : filesystem :=
  {| directories := directories fs ∪ list_to_set (map (fun n => take n d) (seq 1 (length d)));
     files := files fs |}.

(** [d.mkdir(parents=True, exist_ok=True)]; nothing is made when it
    raises. *)
Definition mkdir (d : Path) (fs : filesystem) : outcome unit * filesystem :=
  match mkdir_fault d fs with
  | Some e => (Raises e, fs)
  | None => (Returns (), mkdir_parents d fs)
  end.

(** [with p.open("w") as f: f.write(text)] *)
Definition write_text (p : Path) (text : string) (fs : filesystem)
    : outcome unit * filesystem :=
  if decide (p = [] \/ p ∈ directories fs) then (Raises IsADirectoryError, fs)
  else (Returns (), {| directories := directories fs; files := <[p := text]> (files fs) |}).

(** ** Result Sink: the tabular artifact *)

Definition crlf : string := String "013" (String "010" "").

(** The characters that make [csv.writer] quote a field under
    [QUOTE_MINIMAL]: the delimiter, the quote and those of the line
    terminator. *)
Definition csv_special (c : ascii) : bool :=
  Ascii.eqb c "," || Ascii.eqb c "034" || Ascii.eqb c "013" || Ascii.eqb c "010".

Fixpoint csv_needs_quotes (field : string) : bool :=
  match field with
  | EmptyString => false
  | String c field' => csv_special c || csv_needs_quotes field'
  end.

(** Inside quotes a quote is written twice. *)
Fixpoint csv_double_quotes (field : string) : string :=
  match field with
  | EmptyString => ""
  | String c field' =>
      if Ascii.eqb c "034" then String c (String c (csv_double_quotes field'))
      else String c (csv_double_quotes field')
  end.

(** An empty field is quoted when it is the only field of its row. *)
Definition csv_field (alone : bool) (field : string) : string :=
  if csv_needs_quotes field || (alone && negb (str_truthy field))
  then String "034" (csv_double_quotes field +:+ String "034" "")
  else field.

(** The text [writer.writerow(fields)] appends to the file. *)
Definition writerow (fields : list string) : string :=
  str_join "," (map (csv_field (length fields =? 1)%nat) fields) +:+ crlf.

(** The fields of a result tuple as [writerow] iterates over them. *)
Definition fields_of (result : ResultRecord) : list string :=
  [result.1.1; result.1.2; result.2].

(** ** Result Sink *)

Definition write_results (output_path : Path) (results : list ResultRecord)
    (fs : filesystem) : outcome unit * filesystem :=
  match mkdir (path_parent output_path) fs with
  | (Raises e, fs) => (Raises e, fs)
  | (Returns _, fs) =>
      match write_text output_path (json_dump (json_data results)) fs with
      | (Raises e, fs) => (Raises e, fs)
      | (Returns _, fs) =>
          match with_suffix output_path ".csv" with
          | Raises e => (Raises e, fs)
          | Returns csv_path =>
              let csv_file := writerow ["id"; "query"; "response"] in
              let csv_file :=
                foldl (fun csv_file result => csv_file +:+ writerow (fields_of result))
                      csv_file results in
              write_text csv_path csv_file fs
          end
      end
  end.

(** The path [RESULTS_DIR / f"results_{timestamp}.json"]. *)
Definition results_path (timestamp : string) : Path :=
  ["results"; "results_" +:+ timestamp +:+ ".json"].

(** ** Reading the tabular artifact back *)

(** The state machine of [csv.reader] (excel dialect, not strict) over
    the text of a file opened with [newline=""]: a line ends at a line
    feed, at a carriage return or at the two in a row; inside quotes
    both are part of the field. *)
Inductive csv_mode : Type :=
  | StartRecord
  | AfterCR
  | StartField (fields : list string)
  | InField (fields : list string) (acc : string)
  | InQuotedField (fields : list string) (acc : string)
  | QuoteInQuotedField (fields : list string) (acc : string).

(** The first character of a field. *)
Definition csv_start_field (fields : list string) (c : ascii) : csv_mode :=
  if Ascii.eqb c "034" then InQuotedField fields ""
  else if Ascii.eqb c "," then StartField (fields ++ [""])
  else InField fields (String c "").

(** The end of a line outside quotes closes the record. *)
Definition csv_end_line (records : list (list string)) (record : list string)
    (c : ascii) : list (list string) * csv_mode :=
  (records ++ [record], if Ascii.eqb c "013" then AfterCR else StartRecord).

Definition is_newline (c : ascii) : bool := Ascii.eqb c "013" || Ascii.eqb c "010".

Definition csv_step (st : list (list string) * csv_mode) (c : ascii)
    : list (list string) * csv_mode :=
  let '(records, mode) := st in
  match mode with
  | StartRecord =>
      if is_newline c then csv_end_line records [] c
      else (records, csv_start_field [] c)
  | AfterCR =>
      if Ascii.eqb c "010" then (records, StartRecord)
      else if is_newline c then csv_end_line records [] c
      else (records, csv_start_field [] c)
  | StartField fields =>
      if is_newline c then csv_end_line records (fields ++ [""]) c
      else (records, csv_start_field fields c)
  | InField fields acc =>
      if is_newline c then csv_end_line records (fields ++ [acc]) c
      else if Ascii.eqb c "," then (records, StartField (fields ++ [acc]))
      else (records, InField fields (acc +:+ String c ""))
  | InQuotedField fields acc =>
      if Ascii.eqb c "034" then (records, QuoteInQuotedField fields acc)
      else (records, InQuotedField fields (acc +:+ String c ""))
  | QuoteInQuotedField fields acc =>
      if Ascii.eqb c "034" then (records, InQuotedField fields (acc +:+ String c ""))
      else if Ascii.eqb c "," then (records, StartField (fields ++ [acc]))
      else if is_newline c then csv_end_line records (fields ++ [acc]) c
      else (records, InField fields (acc +:+ String c ""))
  end.

Fixpoint csv_run (st : list (list string) * csv_mode) (text : string)
    : list (list string) * csv_mode :=
  match text with
  | EmptyString => st
  | String c text' => csv_run (csv_step st c) text'
  end.

(** The records of a text: what the machine has gathered when the
    text ends, with the record it was in the middle of. *)
Definition csv_records (text : string) : list (list string) :=
  match csv_run ([], StartRecord) text with
  | (records, StartRecord) | (records, AfterCR) => records
  | (records, StartField fields) => records ++ [fields ++ [""]]
  | (records, InField fields acc)
  | (records, InQuotedField fields acc)
  | (records, QuoteInQuotedField fields acc) => records ++ [fields ++ [acc]]
  end.

(** A byte that continues a character of a UTF-8 text. *)
Definition is_continuation (c : ascii) : bool := (N_of_ascii c / 64 =? 2)%N.

(** [len(s)] of a text given by its UTF-8 bytes: the number of its
    characters, each counted at its first byte. *)
Fixpoint str_len (s : string) : N :=
  match s with
  | EmptyString => 0%N
  | String c s' => ((if is_continuation c then 0 else 1) + str_len s')%N
  end.

(** [csv.field_size_limit()] *)
Definition field_size_limit : N := 131072%N.

Definition csv_Error : py_exception :=
  ExceptionInstance "Error('field larger than field limit (131072)')".

Definition within_limit (field : string) : bool :=
  (str_len field <=? field_size_limit)%N.

(** [list(csv.reader(f))].  The reader refuses to add a character to a
    field that has [field_size_limit] characters; a field only grows, so
    the reader raises exactly when the text has a field longer than the
    limit. *)
Definition csv_reader (text : string) : outcome (list (list string)) :=
  let records := csv_records text in
  if forallb (forallb within_limit) records then Returns records
  else Raises csv_Error.

(** The text of the data rows of the tabular artifact. *)
Fixpoint csv_rows (results : list ResultRecord) : string :=
  match results with
  | [] => ""
  | result :: results' => writerow (fields_of result) +:+ csv_rows results'
  end.

(** A mode in which the reader is about to read a field that follows
    the fields [fields] of the current record. *)
Definition at_field (mode : csv_mode) (fields : list string) : Prop :=
  mode = StartField fields \/ (mode = StartRecord /\ fields = []).

(** After a field as the writer wrote it, the reader holds the field. *)
Definition holds (mode : csv_mode) (fields : list string) (f : string) : Prop :=
  (mode = InField fields f /\ str_truthy f = true)
  \/ mode = QuoteInQuotedField fields f
  \/ (f = "" /\ at_field mode fields).

(** [run_bulk_test]: read the queries, fan them out, write the results
    under a path named after the time of the run.  The console output
    is left out. *)
Definition run_bulk_test {world : Type}
    (get_agent_response : conversation -> world -> outcome conversation * world)
    (reader : list row) (num_workers : Z) (schedule : list nat)
    (timestamp : string) (w : world) (fs : filesystem)
    : option (outcome unit) * world * filesystem :=
  let queries := read_queries reader in
  match run get_agent_response queries num_workers schedule w with
  | (Some (Returns results), w) =>
      let '(written, fs) := write_results (results_path timestamp) results fs in
      (Some written, w, fs)
  | (Some (Raises e), w) => (Some (Raises e), w, fs)
  | (None, w) => (None, w, fs)
  end.

(** A scripted adapter for examples: the state of the service is the
    list of answers it has yet to give, one per call. *)
Definition scripted (c : conversation) (w : list (outcome conversation))
    : outcome conversation * list (outcome conversation) :=
  match w with
  | [] => (Returns c, [])
  | answer :: rest => (answer, rest)
  end.

Definition reply (c : conversation) (text : string) : outcome conversation :=
  Returns (c ++ [Turn "assistant" text])%list.

Definition query_row (i q : string) : row := {[ "id" := i; "query" := q ]}.

(** An adapter for examples that raises Exceptions only: it replies
    with the next text of its list and fails once the list is used up. *)
Definition canned (c : conversation) (w : list string)
    : outcome conversation * list string :=
  match w with
  | [] => (Raises (ExceptionInstance "RuntimeError('service unavailable')"), [])
  | text :: rest => (reply c text, rest)
  end.

(** Inputs for examples. *)
Definition three_queries : list row :=
  [query_row "1" "vegan breakfast?"; query_row "2" "quick dinner?"; query_row "3" "dessert?"].

Definition empty_disk : filesystem := Filesystem ∅ ∅.

Definition two_results : list ResultRecord :=
  [("1", "vegan breakfast?", "Try tofu scramble, it is quick.");
   ("2", "quick dinner?", "Error: RuntimeError('service unavailable')")].

(** A row has a non-empty value in column [k]: the value is there and
    is not the empty string. *)
Definition nonempty_field (r : row) (k : string) : Prop :=
  r !! k <> None /\ r !! k <> Some "".

(** The rows the specification lets through: those with both a
    non-empty id and a non-empty query. *)
Definition is_QueryRecord (r : row) : Prop :=
  nonempty_field r "id" /\ nonempty_field r "query".

(** A row that has the columns of a QueryRecord. *)
Definition has_columns (item : row) : Prop :=
  is_Some (item !! "id") /\ is_Some (item !! "query").

(** An adapter whose faults are all instances of [Exception]. *)
Definition raises_Exceptions_only {world : Type}
    (adapter : conversation -> world -> outcome conversation * world) : Prop :=
  forall c w e w', adapter c w = (Raises e, w') -> is_Exception e = true.

(** A run in which every fault the adapter raises is an instance of
    [Exception]: whatever the adapter raises for the query at a position,
    in the state in which the dispatch of that position runs. *)
Definition faults_are_Exceptions {world : Type}
    (adapter : conversation -> world -> outcome conversation * world)
    (queries : list row) (schedule : list nat) (w : world) : Prop :=
  forall i item query w_i e,
    queries !! i = Some item ->
    item !! "query" = Some query ->
    state_at (dispatch adapter) schedule queries w i = Some w_i ->
    (adapter [Turn "user" query] w_i).1 = Raises e ->
    is_Exception e = true.

(** A script for examples in which the second call times out. *)
Definition timeout_script : list (outcome conversation) :=
  [reply [Turn "user" "dessert?"] "Try fruit salad.";
   Raises (ExceptionInstance "TimeoutError('timed out')");
   reply [Turn "user" "quick dinner?"] "Try an omelette."].

(** A disk on which a regular file has the name of the directory of
    the results. *)
Definition disk_with_results_file : filesystem :=
  Filesystem ∅ {[ ["results"] := "notes" ]}.

(** An adapter whose answer depends on the conversation alone. *)
Definition stateless {world : Type}
    (adapter : conversation -> world -> outcome conversation * world) : Prop :=
  forall c w1 w2, (adapter c w1).1 = (adapter c w2).1.

(** An adapter for examples that gives the same reply to everything. *)
Definition parrot {world : Type} (c : conversation) (w : world)
    : outcome conversation * world :=
  (reply c "Try tofu scramble.", w).

(** A script for examples in which two calls fail with faults that are
    not Exceptions. *)
Definition two_faults : list (outcome conversation) :=
  [Raises (BaseExceptionOnly "SystemExit(2)");
   Raises (BaseExceptionOnly "CancelledError()");
   reply [Turn "user" "vegan breakfast?"] "Try tofu scramble."].

(** Rows of a file whose second row has no query. *)
Definition four_rows : list row :=
  [query_row "1" "vegan breakfast?"; query_row "2" "";
   query_row "3" "quick dinner?"; query_row "4" "dessert?"].

(** Rows of a file that has no query column. *)
Definition rows_without_query : list row :=
  [{[ "id" := "1"; "question" := "vegan breakfast?" ]}; {[ "id" := "2" ]}].

(** ** Reading the query file (scripts/bulk_test.py, [read_queries]) *)

(** [dict(zip(fieldnames, values))]: a repeated field name keeps its
    last value. *)
Definition dict_zip (fieldnames values : list string) : row :=
  foldl (fun d kv => <[kv.1 := kv.2]> d) ∅ (zip fieldnames values).

(** [for key in fieldnames[len(values):]: d[key] = None]: the field
    names a short record has no value for get [None], which [row.get]
    cannot tell from an absent key; a name that is also the name of an
    earlier column loses the value it had. *)
Definition restval (fieldnames values : list string) (d : row) : row :=
  foldl (fun d key => delete key d) d (drop (length values) fieldnames).

(** [csv.DictReader(f)] over the records [csv.reader] yields: the first
    record gives the field names, records without fields (blank lines)
    are skipped.  The values beyond the header go under the key [None],
    which is no string and is left out. *)
Definition DictReader (records : list (list string)) : list row :=
  match records with
  | [] => []
  | fieldnames :: rows =>
      map (fun values => restval fieldnames values (dict_zip fieldnames values))
          (filter (fun r => r <> []) rows)
  end.

Definition FileNotFoundError : py_exception :=
  ExceptionInstance "FileNotFoundError(2, 'No such file or directory')".

(** Opening a file for reading: the bytes it holds. *)
Definition read_bytes (p : Path) (fs : filesystem) : outcome string :=
  match files fs !! p with
  | Some bytes => Returns bytes
  | None =>
      if decide (p = [] \/ p ∈ directories fs) then Raises IsADirectoryError
      else Raises FileNotFoundError
  end.

(** *** Decoding UTF-8 *)

(** Where the decoder is between two bytes: at the boundary of a
    character, or inside one, with the bounds of the next byte and the
    number of bytes to follow it. *)
Inductive utf8_state : Type :=
  | Boundary
  | Inside (lo hi : N) (more : nat).

(** The well-formed byte sequences of the Unicode standard: no overlong
    forms, no surrogates, nothing beyond U+10FFFF. *)
Definition utf8_step (st : utf8_state) (c : ascii) : option utf8_state :=
  let n := N_of_ascii c in
  match st with
  | Boundary =>
      if (n <? 128)%N then Some Boundary
      else if (194 <=? n)%N && (n <=? 223)%N then Some (Inside 128 191 0)
      else if (n =? 224)%N then Some (Inside 160 191 1)
      else if (n =? 237)%N then Some (Inside 128 159 1)
      else if (225 <=? n)%N && (n <=? 239)%N then Some (Inside 128 191 1)
      else if (n =? 240)%N then Some (Inside 144 191 2)
      else if (241 <=? n)%N && (n <=? 243)%N then Some (Inside 128 191 2)
      else if (n =? 244)%N then Some (Inside 128 143 2)
      else None
  | Inside lo hi more =>
      if (lo <=? n)%N && (n <=? hi)%N then
        match more with
        | O => Some Boundary
        | S more' => Some (Inside 128 191 more')
        end
      else None
  end.

Fixpoint utf8_run (st : option utf8_state) (bytes : string) : option utf8_state :=
  match bytes with
  | EmptyString => st
  | String c bytes' => utf8_run (st ≫= fun st => utf8_step st c) bytes'
  end.

(** [bytes.decode("utf-8")] succeeds; the text is then the one these
    bytes give. *)
Definition utf8_valid (bytes : string) : bool :=
  match utf8_run (Some Boundary) bytes with
  | Some Boundary => true
  | _ => false
  end.

(** [read_queries(csv_path)] from the file on.  [None]: the call
    raises, because the file cannot be opened, its bytes are not UTF-8, or
    [csv.reader] refuses a field; the file is decoded piece by piece
    while its lines are read, so that for a file with several of these
    defects the fault raised depends on where the pieces end. *)
Definition read_queries_file (csv_path : Path) (fs : filesystem) : option (list row) :=
  match read_bytes csv_path fs with
  | Raises _ => None
  | Returns bytes =>
      if utf8_valid bytes then
        match csv_reader bytes with
        | Raises _ => None
        | Returns records => Some (read_queries (DictReader records))
        end
      else None
  end.

(** ** Synthetic queries (scripts/generate_tuples.py) *)

Definition CUISINE_TYPES : list string := ["Italian"; "Chinese"; "Indian"; "Japanese"].

Definition MEAL_TYPES : list string := ["breakfast"; "lunch"; "dinner"].

Definition DIETARY_REQUIREMENTS : list string := ["vegetarian"; "vegan"; "gluten-free"].

(** *** [str.strip()] on a string given by its UTF-8 bytes *)

(** [c.isspace()] for a character of ASCII. *)
Definition ascii_isspace (c : ascii) : bool :=
  let n := N_of_ascii c in
  ((9 <=? n) && (n <=? 13) || (28 <=? n) && (n <=? 32))%N.

(** The white space outside ASCII, by the bytes of its encoding:
    U+0085 and U+00A0 take two bytes. *)
Definition isspace2 (a b : ascii) : bool :=
  (N_of_ascii a =? 194)%N && ((N_of_ascii b =? 133)%N || (N_of_ascii b =? 160)%N).

(** U+1680, U+2000 to U+200A, U+2028, U+2029, U+202F, U+205F and
    U+3000 take three bytes. *)
Definition isspace3 (a b c : ascii) : bool :=
  let '(x, y, z) := (N_of_ascii a, N_of_ascii b, N_of_ascii c) in
  ((x =? 225) && (y =? 154) && (z =? 128)
   || (x =? 226) && (y =? 128)
      && ((128 <=? z) && (z <=? 138) || (z =? 168) || (z =? 169) || (z =? 175))
   || (x =? 226) && (y =? 129) && (z =? 159)
   || (x =? 227) && (y =? 128) && (z =? 128))%N.

(** The text after one leading white space character, if there is
    one. *)
Definition drop_space (s : string) : option string :=
  match s with
  | String a (String b (String c rest)) =>
      if ascii_isspace a then Some (String b (String c rest))
      else if isspace2 a b then Some (String c rest)
      else if isspace3 a b c then Some rest
      else None
  | String a (String b EmptyString) =>
      if ascii_isspace a then Some (String b "")
      else if isspace2 a b then Some ""
      else None
  | String a EmptyString => if ascii_isspace a then Some "" else None
  | EmptyString => None
  end.

Fixpoint lstrip_upto (n : nat) (s : string) : string :=
  match n with
  | O => s
  | S n' =>
      match drop_space s with
      | Some rest => lstrip_upto n' rest
      | None => s
      end
  end.

(** [s.lstrip()] *)
Definition str_lstrip (s : string) : string := lstrip_upto (String.length s) s.

(** The same from the end, on the characters in reverse order. *)
Definition drop_space_rev (s : list ascii) : option (list ascii) :=
  match s with
  | c :: b :: a :: rest =>
      if ascii_isspace c then Some (b :: a :: rest)
      else if isspace2 b c then Some (a :: rest)
      else if isspace3 a b c then Some rest
      else None
  | [c; b] =>
      if ascii_isspace c then Some [b]
      else if isspace2 b c then Some []
      else None
  | [c] => if ascii_isspace c then Some [] else None
  | [] => None
  end.

Fixpoint rstrip_upto (n : nat) (s : list ascii) : list ascii :=
  match n with
  | O => s
  | S n' =>
      match drop_space_rev s with
      | Some rest => rstrip_upto n' rest
      | None => s
      end
  end.

(** [s.rstrip()] *)
Definition str_rstrip (s : string) : string :=
  let chars := rev (list_ascii_of_string s) in
  string_of_list_ascii (rev (rstrip_upto (length chars) chars)).

(** [s.strip()] *)
Definition str_strip (s : string) : string := str_rstrip (str_lstrip s).

(** [str(i)] for an index. *)
Definition str_of_nat (i : nat) : string := pretty i.

Definition newline : string := String "010" "".

Definition quoted (s : string) : string := String "034" (s +:+ String "034" "").

(** The dict of one synthetic query. *)
Definition synthetic (cuisine meal dietary query : string) : row :=
  {[ "cuisine" := cuisine; "meal" := meal; "dietary" := dietary; "query" := query ]}.

Section Generator.

(** The state of the random number generator, and the state of the
    language model service. *)
Context {rng world : Type}.

(** [random.Random._randbelow(n)]: a number below [n]. *)
Variable randbelow : nat -> rng -> nat * rng.

(** [litellm.completion(model=..., messages=...)], down to
    [response["choices"][0]["message"]["content"]]: the library and the
    service behind it are outside these sources.  The call raises, or
    gives the content of the first choice, which may be [None]. *)
Variable completion :
  string -> conversation -> world -> outcome (option string) * world.

(** [os.environ] after [load_dotenv]. *)
Variable environ : gmap string string.

(** [os.environ.get("MODEL_NAME", "gpt-4o-mini")] *)
Definition MODEL_NAME : string := default "gpt-4o-mini" (environ !! "MODEL_NAME").

(** [random.choice(seq)] *)
Definition choice (seq : list string) (g : rng) : outcome string * rng :=
  match seq with
  | [] => (Raises (ExceptionInstance "IndexError('Cannot choose from an empty sequence')"), g)
  | _ =>
      let '(k, g) := randbelow (length seq) g in
      match seq !! k with
      | Some x => (Returns x, g)
      | None => (Raises IndexError, g)
      end
  end.

Definition generate_random_tuple (g : rng) : outcome (string * string * string) * rng :=
  match choice CUISINE_TYPES g with
  | (Raises e, g) => (Raises e, g)
  | (Returns cuisine, g) =>
      match choice MEAL_TYPES g with
      | (Raises e, g) => (Raises e, g)
      | (Returns meal, g) =>
          match choice DIETARY_REQUIREMENTS g with
          | (Raises e, g) => (Raises e, g)
          | (Returns dietary, g) => (Returns (cuisine, meal, dietary), g)
          end
      end
  end.

(** [[generate_random_tuple() for _ in range(count)]] *)
Fixpoint generate_tuples_loop (count : nat) (g : rng)
    : outcome (list (string * string * string)) * rng :=
  match count with
  | O => (Returns [], g)
  | S count' =>
      match generate_random_tuple g with
      | (Raises e, g) => (Raises e, g)
      | (Returns t, g) =>
          match generate_tuples_loop count' g with
          | (Raises e, g) => (Raises e, g)
          | (Returns ts, g) => (Returns (t :: ts), g)
          end
      end
  end.

(** [range(n)] is empty for a negative [n]. *)
Definition generate_tuples (n : Z) (g : rng)
    : outcome (list (string * string * string)) * rng :=
  generate_tuples_loop (Z.to_nat n) g.

Definition dietary_text (dietary : option string) : string :=
  match dietary with
  | Some d =>
      if str_truthy d then "with a " +:+ d +:+ " dietary requirement"
      else "with no specific dietary restrictions"
  | None => "with no specific dietary restrictions"
  end.

Definition prompt_of (cuisine meal : string) (dietary : option string) : string :=
  "Generate a natural user query that someone might ask a recipe chatbot." +:+ newline
  +:+ "The query should be about " +:+ cuisine +:+ " cuisine, for " +:+ meal
  +:+ ", " +:+ dietary_text dietary +:+ "." +:+ newline
  +:+ newline
  +:+ "Return ONLY the query text, nothing else. Make it sound natural and varied."
  +:+ newline
  +:+ "Examples of good queries:" +:+ newline
  +:+ "- " +:+ quoted "What's a quick Italian dinner I can make tonight?" +:+ newline
  +:+ "- " +:+ quoted "I need a vegan breakfast idea" +:+ newline
  +:+ "- " +:+ quoted "Can you suggest a gluten-free Mexican lunch?" +:+ newline
  +:+ newline
  +:+ "Generate one query:".

Definition AttributeError : py_exception :=
  ExceptionInstance
    ("AttributeError(" +:+ quoted "'NoneType' object has no attribute 'strip'" +:+ ")").

Definition generate_query_from_tuple (cuisine meal : string) (dietary : option string)
    (w : world) : outcome string * world :=
  let prompt := prompt_of cuisine meal dietary in
  match completion MODEL_NAME [Turn "user" prompt] w with
  | (Raises e, w) => (Raises e, w)
  | (Returns None, w) => (Raises AttributeError, w)
  | (Returns (Some content), w) => (Returns (str_strip content), w)
  end.

(** The loop of [generate_synthetic_queries] over the tuples. *)
Fixpoint query_tuples (tuples : list (string * string * string)) (results : list row)
    (w : world) : outcome (list row) * world :=
  match tuples with
  | [] => (Returns results, w)
  | (cuisine, meal, dietary) :: tuples' =>
      match generate_query_from_tuple cuisine meal (Some dietary) w with
      | (Raises e, w) => (Raises e, w)
      | (Returns query, w) =>
          query_tuples tuples' (results ++ [synthetic cuisine meal dietary query]) w
      end
  end.

Definition generate_synthetic_queries (n : Z) (st : rng * world)
    : outcome (list row) * (rng * world) :=
  let '(g, w) := st in
  match generate_tuples n g with
  | (Raises e, g) => (Raises e, (g, w))
  | (Returns tuples, g) =>
      let '(results, w) := query_tuples tuples [] w in
      (results, (g, w))
  end.

End Generator.

(** *** The script (the block under [if __name__ == "__main__"]) *)

(** What [argparse] makes of the command line.  [output] is the path
    given with [-o], by its components; [None] when the option is
    absent or empty. *)
Record Namespace : Type := Args {
  count : Z;
  generate : bool;
  output : option Path
}.

(** [f.write(text)] on a file opened for writing text, over the bytes
    written so far: the text is encoded when it is written, and what was
    written before stays when the encoding fails. *)
Definition write_encoded (encode : string -> outcome string) (text : string)
    (csv_file : string) : outcome unit * string :=
  match encode text with
  | Raises e => (Raises e, csv_file)
  | Returns bytes => (Returns (), csv_file +:+ bytes)
  end.

(** The loop [for i, r in enumerate(results, start=i): writer.writerow([i, r["query"]])]
    over the bytes of the file written so far. *)
Fixpoint write_query_rows (encode : string -> outcome string) (i : nat)
    (results : list row) (csv_file : string) : outcome unit * string :=
  match results with
  | [] => (Returns (), csv_file)
  | r :: results' =>
      match dict_getitem r "query" with
      | Raises e => (Raises e, csv_file)
      | Returns query =>
          match write_encoded encode (writerow [str_of_nat i; query]) csv_file with
          | (Raises e, csv_file) => (Raises e, csv_file)
          | (Returns _, csv_file) => write_query_rows encode (S i) results' csv_file
          end
      end
  end.

(** [open(p, "w", newline="")]: no path above the file may be a
    regular file, the directory of the file has to be there, and no
    directory may have the name of the file.  The file is empty once
    opened. *)
Definition open_w (p : Path) (fs : filesystem) : outcome unit * filesystem :=
  if decide (Exists (is_file fs) (path_parents p)) then (Raises NotADirectoryError, fs)
  else if decide (is_dir fs (path_parent p)) then write_text p "" fs
  else (Raises FileNotFoundError, fs).

Section GeneratorScript.

Context {rng world : Type}.
Variable randbelow : nat -> rng -> nat * rng.
Variable completion :
  string -> conversation -> world -> outcome (option string) * world.
Variable environ : gmap string string.

(** [Path(__file__).resolve().parent.parent] *)
Variable PROJECT_ROOT : Path.

(** The encoder of the file the script opens.  [open] is given no
    [encoding], so the file takes the encoding of the locale
    ([locale.getencoding()], UTF-8 in the UTF-8 mode of Python): what
    the encoder makes of a text depends on the system, and it raises
    [UnicodeEncodeError] for the characters the encoding lacks.  Texts
    are given here by their UTF-8 bytes, so that the encoder of a UTF-8
    locale returns the text as it is. *)
Variable locale_encode : string -> outcome string.

(** The script; what it prints is left out. *)
Definition generate_tuples_main (args : Namespace) (st : rng * world) (fs : filesystem)
    : outcome unit * (rng * world) * filesystem :=
  if generate args then
    match generate_synthetic_queries randbelow completion environ (count args) st with
    | (Raises e, st) => (Raises e, st, fs)
    | (Returns results, st) =>
        match output args with
        | None => (Returns (), st, fs)
        | Some out =>
            let output_path := PROJECT_ROOT ++ out in
            match open_w output_path fs with
            | (Raises e, fs) => (Raises e, st, fs)
            | (Returns _, fs) =>
                let '(written, csv_file) :=
                  match write_encoded locale_encode (writerow ["id"; "query"]) "" with
                  | (Raises e, csv_file) => (Raises e, csv_file)
                  | (Returns _, csv_file) =>
                      write_query_rows locale_encode 1 results csv_file
                  end in
                (written, st,
                 {| directories := directories fs;
                    files := <[output_path := csv_file]> (files fs) |})
            end
        end
    end
  else
    let '(g, w) := st in
    match generate_tuples randbelow (count args) g with
    | (Raises e, g) => (Raises e, (g, w), fs)
    | (Returns _, g) => (Returns (), (g, w), fs)
    end.

End GeneratorScript.

(** A tuple whose parts come from the three lists of the module. *)
Definition from_lists (t : string * string * string) : Prop :=
  t.1.1 ∈ CUISINE_TYPES /\ t.1.2 ∈ MEAL_TYPES /\ t.2 ∈ DIETARY_REQUIREMENTS.

Section Queried.

Context {world : Type}.
Variable completion :
  string -> conversation -> world -> outcome (option string) * world.
Variable environ : gmap string string.

(** What the loop over the tuples adds, and that it calls the model
    once for each tuple, with the prompt made of it. *)
Inductive queried : list (string * string * string) -> world -> list row -> world -> Prop :=
  | queried_nil w : queried [] w [] w
  | queried_cons cuisine meal dietary tuples content w w1 w2 results :
      completion (MODEL_NAME environ)
        [Turn "user" (prompt_of cuisine meal (Some dietary))] w
        = (Returns (Some content), w1) ->
      queried tuples w1 results w2 ->
      queried ((cuisine, meal, dietary) :: tuples) w
        (synthetic cuisine meal dietary (str_strip content) :: results) w2.

End Queried.

(** The fields of the rows of the file of queries. *)
Fixpoint query_fields (i : nat) (queries : list string) : list (list string) :=
  match queries with
  | [] => []
  | q :: queries' => [str_of_nat i; q] :: query_fields (S i) queries'
  end.

(** The records [read_queries] is to find in a file of queries
    numbered from [i]: one for each query that is not empty, under the
    numeral of its position. *)
Fixpoint numbered (i : nat) (queries : list string) : list row :=
  match queries with
  | [] => []
  | q :: queries' =>
      (if str_truthy q then [query_row (str_of_nat i) q] else [])
      ++ numbered (S i) queries'
  end.

(** [r["query"]] of a synthetic query. *)
Definition query_of (r : row) : string := default "" (r !! "query").

(** The text of the rows of the file of queries. *)
Fixpoint query_rows (i : nat) (queries : list string) : string :=
  match queries with
  | [] => ""
  | q :: queries' => writerow [str_of_nat i; q] +:+ query_rows (S i) queries'
  end.

(** A generator for examples: it counts up, and the number drawn is
    the count reduced modulo the bound. *)
Definition counting (n : nat) (g : nat) : nat * nat := ((g mod n)%nat, S g).

(** A language model for examples: it answers with the texts of its
    list, padded with white space, and fails when the list is used up. *)
Definition canned_model (model : string) (messages : conversation) (w : list string)
    : outcome (option string) * list string :=
  match w with
  | [] => (Raises (ExceptionInstance "APIConnectionError('connection refused')"), [])
  | text :: rest => (Returns (Some ("  " +:+ text +:+ newline)), rest)
  end.

(** A language model for examples that always answers. *)
Definition steady_model (model : string) (messages : conversation) (w : nat)
    : outcome (option string) * nat :=
  (Returns (Some " What can I cook tonight? "), S w).

(** Inputs for the examples of the generator. *)
Definition two_entries : list row :=
  [synthetic "Italian" "lunch" "gluten-free"
     (str_strip ("  " +:+ "Any gluten-free Italian lunch?" +:+ newline));
   synthetic "Japanese" "lunch" "gluten-free"
     (str_strip ("  " +:+ "" +:+ newline))].

Definition script_args : Namespace := Args 2 true (Some ["data"; "queries.csv"]).

Definition disk_with_data : filesystem := Filesystem {[ ["repo"; "data"] ]} ∅.

(** An adapter for examples that replies with a text that reads like a
    fault. *)
Definition apologetic (c : conversation) (w : list string)
    : outcome conversation * list string :=
  (reply c "Error: RuntimeError('service unavailable')", w).

(** * Properties *)

(** ** Query Source Reader *)

Lemma get_truthy_nonempty (r : row) (k : string) :
  get_truthy r k = true <-> nonempty_field r k.
Proof.
  unfold get_truthy, dict_get, nonempty_field.
  destruct (r !! k) as [[|c v]|]; cbn; split; intros H;
    try discriminate; try reflexivity;
    try (split; discriminate); destruct H; congruence.
Qed.

Lemma row_kept_iff (r : row) :
  get_truthy r "id" && get_truthy r "query" = true <-> is_QueryRecord r.
Proof.
  unfold is_QueryRecord. rewrite andb_true_iff, !get_truthy_nonempty. reflexivity.
Qed.

Lemma read_queries_filter (reader : list row) :
  read_queries reader = filter is_QueryRecord reader.
Proof.
  unfold read_queries. induction reader as [|r reader IH]; [reflexivity|].
  cbn [List.filter]. rewrite filter_cons.
  destruct (decide (is_QueryRecord r)) as [Hyes|Hno].
  - apply row_kept_iff in Hyes. rewrite Hyes, IH. reflexivity.
  - destruct (get_truthy r "id" && get_truthy r "query") eqn:Hkeep; [|exact IH].
    apply row_kept_iff in Hkeep. contradiction.
Qed.

(** What the reader lets through has the columns the runner looks up. *)
Lemma read_queries_have_columns (reader : list row) :
  Forall has_columns (read_queries reader).
Proof.
  rewrite read_queries_filter. apply Forall_forall. intros r Hr.
  apply list_elem_of_filter in Hr as [[[Hid _] [Hq _]] _].
  split; apply not_eq_None_Some; assumption.
Qed.


(** ** Dispatch *)

Section DispatchFacts.

Context {world : Type}.
Variable get_agent_response : conversation -> world -> outcome conversation * world.

Lemma getitem_last_Some {A : Type} (l : list A) (a : A) :
  last l = Some a -> getitem_last l = Returns a.
Proof. unfold getitem_last. intros ->. reflexivity. Qed.

Lemma list_truthy_last {A : Type} (l : list A) (a : A) :
  last l = Some a -> list_truthy l = true.
Proof. destruct l; [discriminate | reflexivity]. Qed.

Lemma classify_assistant query_id query history t :
  last history = Some t -> role t = "assistant" ->
  classify query_id query history = Returns (query_id, query, content t).
Proof.
  intros Hlast Hrole. unfold classify.
  rewrite (list_truthy_last _ _ Hlast), (getitem_last_Some _ _ Hlast).
  cbn. rewrite Hrole. reflexivity.
Qed.

Lemma classify_other query_id query history t :
  last history = Some t -> role t <> "assistant" ->
  classify query_id query history = Returns (query_id, query, no_reply).
Proof.
  intros Hlast Hrole. unfold classify.
  rewrite (list_truthy_last _ _ Hlast), (getitem_last_Some _ _ Hlast).
  cbn. apply String.eqb_neq in Hrole. rewrite Hrole. reflexivity.
Qed.

Lemma classify_empty query_id query :
  classify query_id query [] = Returns (query_id, query, no_reply).
Proof. reflexivity. Qed.

(** Whatever the conversation, the [try] block returns a record that
    carries the id and the query it was given. *)
Lemma classify_returns query_id query history :
  exists response, classify query_id query history = Returns (query_id, query, response).
Proof.
  destruct (last history) as [t|] eqn:Hlast.
  - destruct (String.eqb_spec (role t) "assistant") as [Heq|Hne].
    + exists (content t). apply classify_assistant; assumption.
    + exists no_reply. apply (classify_other _ _ _ t); assumption.
  - apply last_None in Hlast. subst history. eexists. apply classify_empty.
Qed.

Lemma process_query_answered query_id query w history w' :
  get_agent_response [Turn "user" query] w = (Returns history, w') ->
  process_query get_agent_response query_id query w
    = (classify query_id query history, w').
Proof.
  intros Hcall. unfold process_query. rewrite Hcall. cbn.
  destruct (classify_returns query_id query history) as [response ->].
  reflexivity.
Qed.

Lemma process_query_raised query_id query w e w' :
  get_agent_response [Turn "user" query] w = (Raises e, w') ->
  process_query get_agent_response query_id query w
    = (if is_Exception e
       then Returns (query_id, query, "Error: " +:+ repr e)
       else Raises e, w').
Proof. intros Hcall. unfold process_query. rewrite Hcall. reflexivity. Qed.

(** A record a dispatch returns carries the id and the query it was
    given. *)
Lemma process_query_returned query_id query w record :
  (process_query get_agent_response query_id query w).1 = Returns record ->
  result_id record = query_id /\ result_query record = query.
Proof.
  destruct (get_agent_response [Turn "user" query] w) as [answer w'] eqn:Hcall.
  destruct answer as [history | e].
  - rewrite (process_query_answered _ _ _ _ _ Hcall).
    destruct (classify_returns query_id query history) as [response ->].
    cbn. intros H. injection H as <-. split; reflexivity.
  - rewrite (process_query_raised _ _ _ _ _ Hcall).
    destruct (is_Exception e); cbn; [|discriminate].
    intros H. injection H as <-. split; reflexivity.
Qed.

(** A dispatch returns a record unless the adapter raises a fault that
    is not an Exception. *)
Lemma process_query_returns query_id query w :
  (forall e, (get_agent_response [Turn "user" query] w).1 = Raises e ->
     is_Exception e = true) ->
  exists record, (process_query get_agent_response query_id query w).1 = Returns record.
Proof.
  intros Hfaults.
  destruct (get_agent_response [Turn "user" query] w) as [answer w'] eqn:Hcall.
  destruct answer as [history | e].
  - rewrite (process_query_answered _ _ _ _ _ Hcall).
    destruct (classify_returns query_id query history) as [response ->].
    by eexists.
  - rewrite (process_query_raised _ _ _ _ _ Hcall), (Hfaults e eq_refl).
    by eexists.
Qed.

(** C5: when the adapter returns a conversation whose final turn has
    role assistant, the response of the record is the content of that
    turn. *)
Theorem process_query_assistant_reply query_id query w history t w' :
  get_agent_response [Turn "user" query] w = (Returns history, w') ->
  last history = Some t ->
  role t = "assistant" ->
  process_query get_agent_response query_id query w
    = (Returns (query_id, query, content t), w').
Proof.
  intros Hcall Hlast Hrole.
  rewrite (process_query_answered _ _ _ _ _ Hcall).
  rewrite (classify_assistant _ _ _ _ Hlast Hrole). reflexivity.
Qed.

(** C4: when the adapter returns a conversation whose final turn does
    not have role assistant, the response is exactly the text
    "Error: No assistant reply found". *)
Theorem process_query_no_assistant_reply query_id query w history t w' :
  get_agent_response [Turn "user" query] w = (Returns history, w') ->
  last history = Some t ->
  role t <> "assistant" ->
  process_query get_agent_response query_id query w
    = (Returns (query_id, query, "Error: No assistant reply found"), w').
Proof.
  intros Hcall Hlast Hrole.
  rewrite (process_query_answered _ _ _ _ _ Hcall).
  rewrite (classify_other _ _ _ _ Hlast Hrole). reflexivity.
Qed.

(** C10: when the adapter returns a conversation without turns, taking
    its final turn would raise IndexError, but the truth test of the
    conversation comes first and the turn is not taken: the dispatch
    returns the text "Error: No assistant reply found", not the
    description of an IndexError. *)
Theorem process_query_empty_conversation query_id query w w' :
  get_agent_response [Turn "user" query] w = (Returns [], w') ->
  getitem_last ([] : conversation) = Raises IndexError /\
  process_query get_agent_response query_id query w
    = (Returns (query_id, query, "Error: No assistant reply found"), w') /\
  "Error: No assistant reply found" <> "Error: " +:+ repr IndexError.
Proof.
  intros Hcall. split; [reflexivity | split; [| discriminate]].
  rewrite (process_query_answered _ _ _ _ _ Hcall). reflexivity.
Qed.

(** C9: whatever the adapter does (a reply, no assistant turn, a
    raised fault), the record a dispatch returns carries the id and the
    query it was given; a dispatch returns no record only when the
    adapter raised something that is not an Exception, which it passes
    on. *)
Theorem process_query_frame query_id query w :
  match (process_query get_agent_response query_id query w).1 with
  | Returns record => result_id record = query_id /\ result_query record = query
  | Raises e =>
      is_Exception e = false /\
      (get_agent_response [Turn "user" query] w).1 = Raises e
  end.
Proof.
  destruct (get_agent_response [Turn "user" query] w) as [answer w'] eqn:Hcall.
  destruct answer as [history | e].
  - rewrite (process_query_answered _ _ _ _ _ Hcall).
    destruct (classify_returns query_id query history) as [response ->].
    cbn. split; reflexivity.
  - rewrite (process_query_raised _ _ _ _ _ Hcall).
    destruct (is_Exception e) eqn:He; cbn; [split; reflexivity | split; [exact He | reflexivity]].
Qed.


End DispatchFacts.

(** ** The thread pool *)

Section PoolFacts.

Context {world A B : Type}.
Variable fn : A -> world -> outcome B * world.

Lemma state_at_not_scheduled schedule (items : list A) w i :
  i ∉ schedule -> state_at fn schedule items w i = None.
Proof.
  revert w. induction schedule as [|j schedule IH]; intros w Hnotin; [reflexivity|].
  apply not_elem_of_cons in Hnotin as [Hne Hnotin]. cbn.
  destruct (items !! j); [|auto].
  destruct (decide (j = i)); [congruence | auto].
Qed.

Lemma state_at_scheduled schedule (items : list A) w i :
  i ∈ schedule -> Forall (fun j => (j < length items)%nat) schedule ->
  is_Some (state_at fn schedule items w i).
Proof.
  revert w. induction schedule as [|j schedule IH]; intros w Hin Hrange.
  - by apply elem_of_nil in Hin.
  - apply Forall_cons in Hrange as [Hj Hrange]. cbn.
    destruct (lookup_lt_is_Some_2 items j Hj) as [item ->].
    destruct (decide (j = i)) as [->|Hne]; [by eexists|].
    apply elem_of_cons in Hin as [->|Hin]; [done | auto].
Qed.

(** Each worker writes into the future of its own task and into no
    other: after the workers are done, the future at position [i]
    holds what task [i] gave in the state it ran in. *)
Lemma run_workers_lookup schedule (items : list A) futures w i :
  NoDup schedule ->
  length futures = length items ->
  (run_workers fn schedule items futures w).1 !! i =
    match state_at fn schedule items w i, items !! i with
    | Some w_i, Some item => Some (Some (fn item w_i).1)
    | _, _ => futures !! i
    end.
Proof.
  revert futures w. induction schedule as [|j schedule IH]; intros futures w Hnodup Hlen.
  - cbn. reflexivity.
  - apply NoDup_cons in Hnodup as [Hj Hnodup]. cbn.
    destruct (items !! j) as [item|] eqn:Hitem.
    + destruct (fn item w) as [result w'] eqn:Hfn. cbn.
      rewrite IH by (rewrite ?length_insert; assumption).
      destruct (decide (j = i)) as [->|Hne].
      * rewrite (state_at_not_scheduled _ _ _ _ Hj), Hitem, Hfn. cbn.
        apply list_lookup_insert_eq.
        apply lookup_lt_Some in Hitem. unfold future in *. lia.
      * rewrite list_lookup_insert_ne by assumption. reflexivity.
    + rewrite IH by assumption. reflexivity.
Qed.

Lemma run_workers_length schedule (items : list A) futures w :
  length (run_workers fn schedule items futures w).1 = length futures.
Proof.
  revert futures w. induction schedule as [|j schedule IH]; intros futures w; [reflexivity|].
  cbn. destruct (items !! j) as [item|]; [|apply IH].
  destruct (fn item w). rewrite IH. apply length_insert.
Qed.

Lemma result_iterator_returns (futures : list (future B)) :
  (forall i f, futures !! i = Some f -> exists b, f = Some (Returns b)) ->
  exists results,
    result_iterator futures = Some (Returns results) /\
    length results = length futures /\
    forall i b, futures !! i = Some (Some (Returns b)) -> results !! i = Some b.
Proof.
  induction futures as [|f futures IH]; intros Hall.
  - exists []. repeat split. intros i b Hi. discriminate.
  - destruct (Hall 0%nat f eq_refl) as [b ->].
    destruct IH as (results & Hres & Hlen & Hlook).
    { intros i f Hi. apply (Hall (S i) f Hi). }
    exists (b :: results). cbn. rewrite Hres. repeat split.
    + cbn. congruence.
    + intros [|i] b' Hi; cbn in *; [congruence | auto].
Qed.

(** The batch the iterator returns is what the futures hold. *)
Lemma result_iterator_Returns (futures : list (future B)) (results : list B) :
  result_iterator futures = Some (Returns results) ->
  futures = map (fun b => Some (Returns b)) results.
Proof.
  revert results. induction futures as [|[[b|e]|] futures IH]; intros results H; cbn in H.
  - injection H as <-. reflexivity.
  - destruct (result_iterator futures) as [[rest|e]|]; try discriminate.
    injection H as <-. cbn. f_equal. by apply IH.
  - discriminate.
  - discriminate.
Qed.

(** The fault the iterator raises is one a future holds. *)
Lemma result_iterator_Raises (futures : list (future B)) (e : py_exception) :
  result_iterator futures = Some (Raises e) ->
  exists i, futures !! i = Some (Some (Raises e)).
Proof.
  induction futures as [|[[b|e0]|] futures IH]; intros H; cbn in H.
  - discriminate.
  - destruct (result_iterator futures) as [[rest|e']|]; try discriminate.
    injection H as ->. destruct (IH eq_refl) as [i Hi]. by exists (S i).
  - injection H as ->. by exists 0%nat.
  - discriminate.
Qed.

(** The iterator comes to an end when every future is completed. *)
Lemma result_iterator_completed (futures : list (future B)) :
  (forall i f, futures !! i = Some f -> is_Some f) ->
  result_iterator futures <> None.
Proof.
  induction futures as [|f futures IH]; intros Hall; [discriminate|].
  destruct (Hall 0%nat f eq_refl) as [[b|e] ->]; [|discriminate].
  cbn. specialize (IH (fun i f Hi => Hall (S i) f Hi)).
  destruct (result_iterator futures) as [[rest|e]|]; [discriminate | discriminate | done].
Qed.

(** What a future holds was put there by a run of its own task, unless
    it held it from the start. *)
Lemma run_workers_provenance schedule (items : list A) futures w i result :
  (run_workers fn schedule items futures w).1 !! i = Some (Some result) ->
  futures !! i = Some (Some result) \/
  exists item w_i, items !! i = Some item /\ result = (fn item w_i).1.
Proof.
  revert futures w. induction schedule as [|j schedule IH]; intros futures w H; [by left|].
  cbn in H. destruct (items !! j) as [item|] eqn:Hitem; [|by apply IH in H].
  destruct (fn item w) as [r w'] eqn:Hfn.
  apply IH in H as [H|H]; [|by right].
  apply list_lookup_insert_Some in H as [(-> & Heq & _)|[_ H]]; [|by left].
  right. exists item, w. split; [exact Hitem|]. injection Heq as <-. by rewrite Hfn.
Qed.

End PoolFacts.

(** ** Bulk Query Runner *)

Section RunnerFacts.

Context {world : Type}.
Variable get_agent_response : conversation -> world -> outcome conversation * world.

Lemma dispatch_process_query item query_id query w :
  item !! "id" = Some query_id -> item !! "query" = Some query ->
  dispatch get_agent_response item w
    = process_query get_agent_response query_id query w.
Proof. intros Hid Hq. unfold dispatch, dict_getitem. rewrite Hid, Hq. reflexivity. Qed.

(** A dispatch that returns a record has found the id and the query
    of its row, and the record carries them. *)
Lemma dispatch_returned item w record :
  (dispatch get_agent_response item w).1 = Returns record ->
  item !! "id" = Some (result_id record) /\ item !! "query" = Some (result_query record).
Proof.
  unfold dispatch, dict_getitem.
  destruct (item !! "id") as [query_id|]; [|discriminate].
  destruct (item !! "query") as [query|]; [|discriminate].
  intros H. apply process_query_returned in H as [-> ->]. done.
Qed.

Lemma raises_Exceptions_only_run queries schedule w :
  raises_Exceptions_only get_agent_response ->
  faults_are_Exceptions get_agent_response queries schedule w.
Proof.
  intros Hfaults i item query w_i e _ _ _ Hraise.
  destruct (get_agent_response [Turn "user" query] w_i) as [answer w'] eqn:Hcall.
  cbn in Hraise. subst answer. exact (Hfaults _ _ _ _ Hcall).
Qed.

Lemma run_pool queries num_workers schedule w :
  queries <> [] -> 0 < num_workers ->
  run get_agent_response queries num_workers schedule w
    = executor_map (dispatch get_agent_response)
        (Executor (Z.min num_workers (Z.of_nat (length queries))))
        schedule queries w.
Proof.
  intros Hne Hpos. unfold run, ThreadPoolExecutor.
  destruct queries as [|item queries]; [congruence|].
  destruct (Z.leb_spec (Z.min num_workers (Z.of_nat (length (item :: queries)))) 0)
    as [Hle|Hlt]; [|reflexivity].
  cbn [length] in Hle. lia.
Qed.

(** The futures once the workers are done, for a schedule that runs
    every task once: each holds what the dispatch of its own query gave
    in the state it ran in. *)
Lemma run_workers_complete (schedule : list nat) (queries : list row) w i item :
  schedule ≡ₚ seq 0 (length queries) ->
  queries !! i = Some item ->
  exists w_i,
    state_at (dispatch get_agent_response) schedule queries w i = Some w_i /\
    (run_workers (dispatch get_agent_response) schedule queries
       (replicate (length queries) None) w).1 !! i
      = Some (Some (dispatch get_agent_response item w_i).1).
Proof.
  intros Hperm Hitem.
  assert (Hnodup : NoDup schedule) by (rewrite Hperm; apply NoDup_seq).
  assert (Hrange : Forall (fun j => (j < length queries)%nat) schedule).
  { rewrite Hperm. apply Forall_forall. intros j Hj. apply elem_of_seq in Hj. lia. }
  assert (Hin : i ∈ schedule).
  { rewrite Hperm. apply elem_of_seq. apply lookup_lt_Some in Hitem. lia. }
  destruct (state_at_scheduled (dispatch get_agent_response)
              schedule queries w i Hin Hrange) as [w_i Hstate].
  exists w_i. split; [exact Hstate|].
  rewrite run_workers_lookup by (assumption || apply length_replicate).
  rewrite Hstate, Hitem. reflexivity.
Qed.

Lemma run_result_iterator queries num_workers schedule w :
  queries <> [] -> 0 < num_workers ->
  (run get_agent_response queries num_workers schedule w).1
    = result_iterator
        (run_workers (dispatch get_agent_response) schedule queries
           (replicate (length queries) None) w).1.
Proof.
  intros Hne Hpos. rewrite run_pool by assumption. unfold executor_map.
  destruct (run_workers _ _ _ _ _). reflexivity.
Qed.

(** Every batch the runner returns is as long as the input, and its
    record at each position carries the id and the query of the row at
    that position: whatever the adapter, the budget and the schedule. *)
Lemma run_returned_aligned queries num_workers schedule w batch :
  (run get_agent_response queries num_workers schedule w).1 = Some (Returns batch) ->
  length batch = length queries /\
  forall i item, queries !! i = Some item ->
    exists record, batch !! i = Some record /\
      item !! "id" = Some (result_id record) /\
      item !! "query" = Some (result_query record).
Proof.
  unfold run.
  destruct (ThreadPoolExecutor _) as [pool|e]; [|intros H; cbn in H; discriminate].
  unfold executor_map.
  pose proof (run_workers_length (dispatch get_agent_response) schedule queries
                (replicate (length queries) None) w) as Hlen.
  pose proof (fun i result =>
                run_workers_provenance (dispatch get_agent_response) schedule queries
                  (replicate (length queries) None) w i result) as Hprov.
  destruct (run_workers (dispatch get_agent_response) schedule queries
              (replicate (length queries) None) w) as [futures w'].
  cbn [fst] in *. intros Hres. apply result_iterator_Returns in Hres. subst futures.
  rewrite length_map, length_replicate in Hlen. split; [exact Hlen|].
  intros i item Hitem.
  destruct (lookup_lt_is_Some_2 batch i) as [record Hrec].
  { apply lookup_lt_Some in Hitem. lia. }
  exists record. split; [exact Hrec|].
  destruct (Hprov i (Returns record)) as [H|(item' & w_i & Hitem' & Hdisp)].
  { rewrite list_lookup_fmap, Hrec. reflexivity. }
  - apply lookup_replicate in H as [H _]. discriminate.
  - rewrite Hitem in Hitem'. injection Hitem' as <-.
    apply (dispatch_returned item w_i). by rewrite <- Hdisp.
Qed.

(** With at least one record and at least one worker, in a run in which
    the adapter raises Exceptions only, the runner returns a batch,
    in whichever order the dispatches complete. *)
Lemma run_returns queries num_workers schedule w :
  queries <> [] -> 0 < num_workers ->
  schedule ≡ₚ seq 0 (length queries) ->
  Forall has_columns queries ->
  faults_are_Exceptions get_agent_response queries schedule w ->
  exists batch,
    (run get_agent_response queries num_workers schedule w).1 = Some (Returns batch).
Proof.
  intros Hne Hpos Hperm Hcols Hfaults.
  rewrite run_result_iterator by assumption.
  destruct (result_iterator_returns
              (run_workers (dispatch get_agent_response) schedule queries
                 (replicate (length queries) None) w).1) as (batch & Hres & _).
  { intros i f Hi.
    destruct (lookup_lt_is_Some_2 queries i) as [item Hitem].
    { apply lookup_lt_Some in Hi.
      pose proof (run_workers_length (dispatch get_agent_response) schedule queries
                    (replicate (length queries) None) w) as Hlen.
      rewrite length_replicate in Hlen. unfold future in *. lia. }
    destruct (run_workers_complete schedule queries w i item Hperm Hitem)
      as (w_i & Hstate & Hfut).
    pose proof (proj1 (Forall_forall _ _) Hcols item
                  (list_elem_of_lookup_2 _ _ _ Hitem)) as [[query_id Hid] [query Hq]].
    destruct (process_query_returns get_agent_response query_id query w_i)
      as [record Hrec].
    { intros e. apply (Hfaults i item query w_i e Hitem Hq Hstate). }
    rewrite <- (dispatch_process_query item query_id query w_i Hid Hq) in Hrec.
    exists record. rewrite Hfut in Hi. injection Hi as <-. by rewrite Hrec. }
  by exists batch.
Qed.

(** C2: given no records, whatever the worker budget, the runner computes
    a worker count of at most zero, creates no pool and calls neither
    the adapter nor a worker; it does not return an empty batch, it
    raises the ValueError of the pool constructor. *)
Theorem run_empty_raises num_workers schedule w :
  Z.min num_workers (Z.of_nat (length ([] : list row))) <= 0 /\
  run get_agent_response [] num_workers schedule w
    = (Some (Raises (ValueError "max_workers must be greater than 0")), w).
Proof.
  split; [cbn; lia|]. unfold run, ThreadPoolExecutor.
  destruct (Z.leb_spec (Z.min num_workers (Z.of_nat (length ([] : list row)))) 0)
    as [Hle|Hlt]; [reflexivity | cbn in Hlt; lia].
Qed.

(** C1, amended: every batch the runner returns is as long as the
    input and its record at each position carries the id of the query at
    that position, for every adapter, every worker budget and every order
    in which the dispatches complete, whether they succeed or fail.  The
    runner returns a batch when there is at least one QueryRecord, the
    budget is positive and no call of the adapter in the run raises a
    fault that is not an Exception. *)
Theorem run_aligned queries num_workers schedule w :
  (forall batch,
     (run get_agent_response queries num_workers schedule w).1 = Some (Returns batch) ->
     length batch = length queries /\
     forall i item, queries !! i = Some item ->
       exists record, batch !! i = Some record /\ item !! "id" = Some (result_id record)) /\
  (queries <> [] -> 0 < num_workers ->
   schedule ≡ₚ seq 0 (length queries) ->
   Forall has_columns queries ->
   faults_are_Exceptions get_agent_response queries schedule w ->
   exists batch,
     (run get_agent_response queries num_workers schedule w).1 = Some (Returns batch)).
Proof.
  split.
  - intros batch Hrun.
    destruct (run_returned_aligned queries num_workers schedule w batch Hrun)
      as [Hlen Hbatch].
    split; [exact Hlen|]. intros i item Hitem.
    destruct (Hbatch i item Hitem) as (record & Hi & Hid & _).
    by exists record.
  - apply run_returns.
Qed.

(** C3, amended: whenever the adapter raises a fault that is an
    instance of Exception, the dispatch returns the record whose response
    is "Error: " followed by the repr of the fault.  In a run with a
    positive budget in which the dispatch at a position met such a fault,
    a batch the runner returns has that record at the position and, at
    every position, the record the dispatch of its own query returned in
    the state it ran in; a fault the runner raises is the fault of the
    dispatch at another position; and the runner does one of the two.  It
    returns a batch when no call of the adapter in the run raises a fault
    that is not an Exception. *)
Theorem run_isolates_faults :
  (forall query_id query w e w',
     get_agent_response [Turn "user" query] w = (Raises e, w') ->
     is_Exception e = true ->
     process_query get_agent_response query_id query w
       = (Returns (query_id, query, "Error: " +:+ repr e), w')) /\
  (forall queries num_workers schedule w i item query_id query w_i e,
     0 < num_workers ->
     schedule ≡ₚ seq 0 (length queries) ->
     queries !! i = Some item ->
     item !! "id" = Some query_id ->
     item !! "query" = Some query ->
     state_at (dispatch get_agent_response) schedule queries w i = Some w_i ->
     (get_agent_response [Turn "user" query] w_i).1 = Raises e ->
     is_Exception e = true ->
     (forall batch,
        (run get_agent_response queries num_workers schedule w).1 = Some (Returns batch) ->
        batch !! i = Some (query_id, query, "Error: " +:+ repr e) /\
        forall j item_j, queries !! j = Some item_j ->
          exists w_j record,
            state_at (dispatch get_agent_response) schedule queries w j = Some w_j /\
            (dispatch get_agent_response item_j w_j).1 = Returns record /\
            batch !! j = Some record) /\
     (forall e',
        (run get_agent_response queries num_workers schedule w).1 = Some (Raises e') ->
        exists j item_j w_j,
          j <> i /\ queries !! j = Some item_j /\
          state_at (dispatch get_agent_response) schedule queries w j = Some w_j /\
          (dispatch get_agent_response item_j w_j).1 = Raises e') /\
     (run get_agent_response queries num_workers schedule w).1 <> None) /\
  (forall queries num_workers schedule w,
     queries <> [] -> 0 < num_workers ->
     schedule ≡ₚ seq 0 (length queries) ->
     Forall has_columns queries ->
     faults_are_Exceptions get_agent_response queries schedule w ->
     exists batch,
       (run get_agent_response queries num_workers schedule w).1 = Some (Returns batch)).
Proof.
  split; [|split].
  - intros query_id query w e w' Hcall He.
    rewrite (process_query_raised _ _ _ _ _ _ Hcall), He. reflexivity.
  - intros queries num_workers schedule w i item query_id query w_i e
      Hpos Hperm Hitem Hid Hq Hstate Hraise He.
    assert (Hne : queries <> []) by (intros ->; discriminate).
    rewrite run_result_iterator by assumption.
    pose proof (fun j item_j => run_workers_complete schedule queries w j item_j Hperm)
      as Hfut.
    pose proof (run_workers_length (dispatch get_agent_response) schedule queries
                  (replicate (length queries) None) w) as Hlen.
    rewrite length_replicate in Hlen.
    destruct (run_workers (dispatch get_agent_response) schedule queries
                (replicate (length queries) None) w) as [futures w'].
    cbn [fst] in *.
    assert (Hi : futures !! i
                 = Some (Some (Returns (query_id, query, "Error: " +:+ repr e)))).
    { destruct (Hfut i item Hitem) as (w_i' & Hstate' & Hfi).
      rewrite Hstate in Hstate'. injection Hstate' as <-.
      rewrite (dispatch_process_query item query_id query w_i Hid Hq) in Hfi.
      destruct (get_agent_response [Turn "user" query] w_i) as [answer w1] eqn:Hcall.
      cbn in Hraise. subst answer.
      rewrite (process_query_raised _ _ _ _ _ _ Hcall), He in Hfi. exact Hfi. }
    split; [|split].
    + intros batch Hres. apply result_iterator_Returns in Hres. subst futures.
      split.
      * rewrite list_lookup_fmap in Hi.
        destruct (batch !! i) as [record|]; [|discriminate].
        cbn [fmap option_fmap option_map] in Hi. injection Hi as ->. reflexivity.
      * intros j item_j Hitem_j.
        destruct (Hfut j item_j Hitem_j) as (w_j & Hstate_j & Hj).
        rewrite list_lookup_fmap in Hj.
        destruct (batch !! j) as [record|]; [|discriminate].
        cbn [fmap option_fmap option_map] in Hj. injection Hj as Hj.
        exists w_j, record. split; [exact Hstate_j|].
        split; [by rewrite <- Hj | reflexivity].
    + intros e' Hres. apply result_iterator_Raises in Hres as [j Hj].
      destruct (lookup_lt_is_Some_2 queries j) as [item_j Hitem_j].
      { apply lookup_lt_Some in Hj. unfold future in *. lia. }
      destruct (Hfut j item_j Hitem_j) as (w_j & Hstate_j & Hj').
      exists j, item_j, w_j. split; [|split; [exact Hitem_j | split; [exact Hstate_j|]]].
      * intros ->. pose proof (eq_trans (eq_sym Hi) Hj) as H. discriminate H.
      * pose proof (eq_trans (eq_sym Hj) Hj') as H. congruence.
    + apply result_iterator_completed. intros j f Hj.
      destruct (lookup_lt_is_Some_2 queries j) as [item_j Hitem_j].
      { apply lookup_lt_Some in Hj. unfold future in *. lia. }
      destruct (Hfut j item_j Hitem_j) as (w_j & _ & Hj').
      pose proof (eq_trans (eq_sym Hj) Hj') as H. injection H as ->. by eexists.
  - apply run_returns.
Qed.

End RunnerFacts.

(** ** Result Sink: the structured-record artifact *)

Lemma append_nil_r (s : string) : s +:+ "" = s.
Proof.
  induction s as [|c s IH]; [reflexivity|].
  change (String c (s +:+ "") = String c s). by rewrite IH.
Qed.

Lemma append_assoc (a b c : string) : (a +:+ b) +:+ c = a +:+ (b +:+ c).
Proof.
  induction a as [|x a IH]; [reflexivity|].
  change (String x ((a +:+ b) +:+ c) = String x (a +:+ (b +:+ c))). by rewrite IH.
Qed.

Lemma lex_None (text : string) : lex None text = None.
Proof. induction text as [|c text IH]; cbn; [reflexivity | exact IH]. Qed.

Lemma lex_app st (a b : string) : lex st (a +:+ b) = lex (lex st a) b.
Proof.
  revert st. induction a as [|c a IH]; intros st; [reflexivity|].
  change (lex (st ≫= fun st => lex_step st c) (a +:+ b)
          = lex (lex (st ≫= fun st => lex_step st c) a) b).
  apply IH.
Qed.

(** Reading an escape gives back the character that was escaped. *)
Lemma lex_escape tokens acc (c : ascii) :
  lex (Some (tokens, InString acc)) (json_escape c)
    = Some (tokens, InString (acc +:+ String c "")).
Proof. destruct c as [[] [] [] [] [] [] [] []]; reflexivity. Qed.

Lemma lex_escape_all tokens acc (s : string) :
  lex (Some (tokens, InString acc)) (json_escape_all s)
    = Some (tokens, InString (acc +:+ s)).
Proof.
  revert acc. induction s as [|c s IH]; intros acc; cbn [json_escape_all].
  - by rewrite append_nil_r.
  - rewrite lex_app, lex_escape, IH, append_assoc. reflexivity.
Qed.

Lemma lex_basestring tokens (s : string) :
  lex (Some (tokens, Between)) (encode_basestring s)
    = Some (tokens ++ [Str s], Between).
Proof.
  unfold encode_basestring. cbn [lex]. change (Some (tokens, Between) ≫= _)
    with (Some (tokens, InString "")).
  rewrite lex_app, lex_escape_all. reflexivity.
Qed.

Lemma lex_spaces tokens (n : nat) :
  lex (Some (tokens, Between)) (string_of_list_ascii (replicate n " "%char))
    = Some (tokens, Between).
Proof. induction n as [|n IH]; cbn; [reflexivity | exact IH]. Qed.

Lemma lex_newline_indent tokens (level : nat) :
  lex (Some (tokens, Between)) (newline_indent level) = Some (tokens, Between).
Proof. unfold newline_indent. cbn [lex]. apply lex_spaces. Qed.

Lemma lex_join {A : Type} (sep : string) (f : A -> string) (g : A -> list token)
    (l : list A) tokens :
  (forall tokens, lex (Some (tokens, Between)) sep = Some (tokens ++ [Comma], Between)) ->
  (forall x tokens, lex (Some (tokens, Between)) (f x) = Some (tokens ++ g x, Between)) ->
  lex (Some (tokens, Between)) (str_join sep (map f l))
    = Some (tokens ++ join_tokens (map g l), Between).
Proof.
  intros Hsep Hpart. revert tokens.
  induction l as [|x [|y l] IH]; intros tokens.
  - cbn. by rewrite app_nil_r.
  - cbn. apply Hpart.
  - change (str_join sep (map f (x :: y :: l)))
      with (f x +:+ sep +:+ str_join sep (map f (y :: l))).
    change (join_tokens (map g (x :: y :: l)))
      with (g x ++ Comma :: join_tokens (map g (y :: l))).
    rewrite !lex_app, Hpart, Hsep, IH.
    rewrite <- !app_assoc. reflexivity.
Qed.

Lemma lex_comma_newline tokens (level : nat) :
  lex (Some (tokens, Between)) ("," +:+ newline_indent level)
    = Some (tokens ++ [Comma], Between).
Proof. rewrite lex_app. cbn [lex]. apply lex_newline_indent. Qed.

Lemma lex_punctuation tokens :
  lex (Some (tokens, Between)) ": " = Some (tokens ++ [Colon], Between) /\
  lex (Some (tokens, Between)) "{" = Some (tokens ++ [LBrace], Between) /\
  lex (Some (tokens, Between)) "}" = Some (tokens ++ [RBrace], Between) /\
  lex (Some (tokens, Between)) "[" = Some (tokens ++ [LBracket], Between) /\
  lex (Some (tokens, Between)) "]" = Some (tokens ++ [RBracket], Between).
Proof. repeat split. Qed.

Lemma lex_member tokens (kv : string * string) :
  lex (Some (tokens, Between))
      (encode_basestring kv.1 +:+ ": " +:+ encode_basestring kv.2)
    = Some (tokens ++ member_tokens kv, Between).
Proof.
  rewrite !lex_app, lex_basestring.
  rewrite (proj1 (lex_punctuation _)), lex_basestring, <- !app_assoc.
  reflexivity.
Qed.

Lemma lex_dict tokens (level : nat) (d : ordered_dict) :
  lex (Some (tokens, Between)) (json_dump_dict level d)
    = Some (tokens ++ dict_tokens d, Between).
Proof.
  destruct d as [|kv d].
  { change (json_dump_dict level []) with ("{" +:+ "}").
    rewrite lex_app.
    rewrite (proj1 (proj2 (lex_punctuation _))).
    rewrite (proj1 (proj2 (proj2 (lex_punctuation _)))).
    by rewrite <- app_assoc. }
  unfold json_dump_dict, dict_tokens.
  destruct (lex_punctuation tokens) as (_ & Hopen & _).
  rewrite !lex_app, Hopen, lex_newline_indent.
  rewrite (lex_join _ _ member_tokens).
  - rewrite lex_newline_indent.
    destruct (lex_punctuation ((tokens ++ [LBrace])
                ++ join_tokens (map member_tokens (kv :: d)))) as (_ & _ & Hclose & _).
    rewrite Hclose, <- !app_assoc. reflexivity.
  - intros ts. apply lex_comma_newline.
  - intros x ts. apply lex_member.
Qed.

Lemma tokenize_json_dump (l : list ordered_dict) :
  tokenize (json_dump l) = Some (list_tokens l).
Proof.
  unfold tokenize. destruct l as [|d l]; [reflexivity|].
  unfold json_dump, list_tokens.
  destruct (lex_punctuation []) as (_ & _ & _ & Hopen & _).
  rewrite !lex_app, Hopen, lex_newline_indent.
  rewrite (lex_join _ _ dict_tokens).
  - rewrite lex_newline_indent.
    destruct (lex_punctuation (([] ++ [LBracket])
                ++ join_tokens (map dict_tokens (d :: l)))) as (_ & _ & _ & _ & Hclose).
    rewrite Hclose. reflexivity.
  - intros ts. apply lex_comma_newline.
  - intros x ts. apply lex_dict.
Qed.

Lemma parse_app st (a b : list token) : parse st (a ++ b) = parse (parse st a) b.
Proof. apply foldl_app. Qed.

Lemma parse_record done (result : ResultRecord) :
  parse (Some (AfterItemComma done)) (dict_tokens (dict_data result))
    = Some (ObjectClosed (done ++ [dict_of result])).
Proof. reflexivity. Qed.

Lemma parse_records done (results : list ResultRecord) :
  results <> [] ->
  parse (Some (AfterItemComma done))
        (join_tokens (map dict_tokens (map dict_data results)))
    = Some (ObjectClosed (done ++ map dict_of results)).
Proof.
  revert done. induction results as [|x [|y results] IH]; intros done Hne.
  - congruence.
  - apply parse_record.
  - change (join_tokens (map dict_tokens (map dict_data (x :: y :: results))))
      with (dict_tokens (dict_data x)
            ++ Comma :: join_tokens (map dict_tokens (map dict_data (y :: results)))).
    rewrite parse_app, parse_record.
    change (parse (Some (ObjectClosed (done ++ [dict_of x]))) (Comma :: ?rest))
      with (parse (Some (AfterItemComma (done ++ [dict_of x]))) rest).
    rewrite IH by discriminate. rewrite <- app_assoc. reflexivity.
Qed.

Lemma json_load_json_dump (results : list ResultRecord) :
  json_load (json_dump (json_data results)) = Some (map dict_of results).
Proof.
  unfold json_load. rewrite tokenize_json_dump. cbn [mbind option_bind].
  destruct results as [|x results]; [reflexivity|].
  unfold list_tokens.
  change (json_data (x :: results)) with (map dict_data (x :: results)).
  change (parse (Some AtStart) (LBracket :: ?rest)) with (parse (Some ArrayOpen) rest).
  rewrite parse_app.
  assert (Hfirst : forall rest,
            parse (Some ArrayOpen) (join_tokens (map dict_tokens (map dict_data (x :: rest))))
            = parse (Some (AfterItemComma []))
                (join_tokens (map dict_tokens (map dict_data (x :: rest))))).
  { intros [|y rest]; reflexivity. }
  rewrite Hfirst, parse_records by discriminate. reflexivity.
Qed.

Lemma triple_of_dict_of (result : ResultRecord) : triple_of (dict_of result) = Some result.
Proof.
  destruct result as [[i q] r]. unfold triple_of, dict_of. cbn [fst snd].
  repeat (first [rewrite lookup_insert_eq | rewrite lookup_insert_ne by done];
          cbn [mbind option_bind]).
  reflexivity.
Qed.

Lemma mapM_triple_of (results : list ResultRecord) :
  mapM triple_of (map dict_of results) = Some results.
Proof.
  induction results as [|x results IH]; [reflexivity|].
  cbn [map mapM]. rewrite triple_of_dict_of. cbn [mbind option_bind].
  rewrite IH. reflexivity.
Qed.

(** Reading the text that [json.dump] wrote gives the results back. *)
Lemma read_results_json_dump (results : list ResultRecord) :
  read_results (json_dump (json_data results)) = Some results.
Proof.
  unfold read_results. rewrite json_load_json_dump. cbn [mbind option_bind].
  apply mapM_triple_of.
Qed.

(** ** Result Sink: the tabular artifact *)

Lemma csv_run_app st (a b : string) : csv_run st (a +:+ b) = csv_run (csv_run st a) b.
Proof.
  revert st. induction a as [|c a IH]; intros st; [reflexivity|].
  change (csv_run (csv_step st c) (a +:+ b) = csv_run (csv_run (csv_step st c) a) b).
  apply IH.
Qed.

Lemma csv_step_plain_first records mode fields (c : ascii) :
  at_field mode fields -> csv_special c = false ->
  csv_step (records, mode) c = (records, InField fields (String c "")).
Proof.
  unfold csv_special. intros Hmode Hc.
  apply orb_false_elim in Hc as [Hc Hlf]. apply orb_false_elim in Hc as [Hc Hcr].
  apply orb_false_elim in Hc as [Hcomma Hquote].
  destruct Hmode as [-> | [-> ->]]; cbn; unfold is_newline, csv_start_field;
    rewrite Hcr, Hlf, Hquote, Hcomma; reflexivity.
Qed.

Lemma csv_run_plain records fields acc (f : string) :
  csv_needs_quotes f = false ->
  csv_run (records, InField fields acc) f = (records, InField fields (acc +:+ f)).
Proof.
  revert acc. induction f as [|c f IH]; intros acc Hf.
  - by rewrite append_nil_r.
  - cbn in Hf. apply orb_false_elim in Hf as [Hc Hf].
    unfold csv_special in Hc.
    apply orb_false_elim in Hc as [Hc Hlf]. apply orb_false_elim in Hc as [Hc Hcr].
    apply orb_false_elim in Hc as [Hcomma Hquote].
    cbn [csv_run csv_step]. unfold is_newline. rewrite Hcr, Hlf, Hcomma. cbn.
    rewrite IH by assumption.
    change (String c f) with (String c "" +:+ f). by rewrite append_assoc.
Qed.

Lemma csv_run_quoted records fields acc (f : string) :
  csv_run (records, InQuotedField fields acc) (csv_double_quotes f)
    = (records, InQuotedField fields (acc +:+ f)).
Proof.
  revert acc. induction f as [|c f IH]; intros acc.
  - by rewrite append_nil_r.
  - cbn [csv_double_quotes]. destruct (Ascii.eqb c "034") eqn:Hq.
    + cbn [csv_run csv_step]. rewrite Hq. cbn [csv_step]. rewrite Hq.
      rewrite IH. change (String c f) with (String c "" +:+ f).
      by rewrite append_assoc.
    + cbn [csv_run csv_step]. rewrite Hq.
      rewrite IH. change (String c f) with (String c "" +:+ f).
      by rewrite append_assoc.
Qed.

Lemma csv_run_field records mode fields (f : string) :
  at_field mode fields ->
  exists mode', csv_run (records, mode) (csv_field false f) = (records, mode')
                /\ holds mode' fields f.
Proof.
  intros Hmode. unfold csv_field. rewrite andb_false_l, orb_false_r.
  destruct (csv_needs_quotes f) eqn:Hf.
  - exists (QuoteInQuotedField fields f). split; [|right; left; reflexivity].
    change (String "034" (csv_double_quotes f +:+ String "034" ""))
      with (String "034" "" +:+ csv_double_quotes f +:+ String "034" "").
    rewrite !csv_run_app.
    assert (Hopen : csv_run (records, mode) (String "034" "")
                    = (records, InQuotedField fields "")).
    { destruct Hmode as [-> | [-> ->]]; reflexivity. }
    rewrite Hopen, csv_run_quoted. reflexivity.
  - destruct f as [|c f].
    + exists mode. split; [reflexivity | right; right; split; [reflexivity | exact Hmode]].
    + cbn in Hf. apply orb_false_elim in Hf as [Hc Hf].
      exists (InField fields (String c f)). split; [|left; split; reflexivity].
      cbn [csv_run]. rewrite (csv_step_plain_first _ _ fields) by assumption.
      rewrite csv_run_plain by assumption. reflexivity.
Qed.

Lemma csv_step_comma records mode fields (f : string) :
  holds mode fields f ->
  csv_step (records, mode) "," = (records, StartField (fields ++ [f])).
Proof.
  intros [[-> _] | [-> | [-> [-> | [-> ->]]]]]; reflexivity.
Qed.

Lemma csv_run_crlf records mode fields (f : string) :
  holds mode fields f -> mode <> StartRecord ->
  csv_run (records, mode) crlf = (records ++ [fields ++ [f]], StartRecord).
Proof.
  intros [[-> _] | [-> | [-> [-> | [-> ->]]]]] Hmode; try reflexivity.
  congruence.
Qed.

(** The reader gets back the three fields of a row the writer wrote. *)
Lemma csv_run_writerow records (a b c : string) :
  csv_run (records, StartRecord) (writerow [a; b; c])
    = (records ++ [[a; b; c]], StartRecord).
Proof.
  unfold writerow.
  change (str_join "," (map (csv_field (length [a; b; c] =? 1)%nat) [a; b; c]))
    with (csv_field false a +:+ "," +:+ csv_field false b +:+ "," +:+ csv_field false c).
  rewrite !csv_run_app.
  destruct (csv_run_field records StartRecord [] a) as (m1 & -> & H1);
    [right; split; reflexivity|].
  change (csv_run (records, m1) ",") with (csv_step (records, m1) ",").
  rewrite (csv_step_comma _ _ _ _ H1).
  destruct (csv_run_field records (StartField ([] ++ [a])) ([] ++ [a]) b)
    as (m2 & -> & H2); [left; reflexivity|].
  change (csv_run (records, m2) ",") with (csv_step (records, m2) ",").
  rewrite (csv_step_comma _ _ _ _ H2).
  destruct (csv_run_field records (StartField (([] ++ [a]) ++ [b])) (([] ++ [a]) ++ [b]) c)
    as (m3 & -> & H3); [left; reflexivity|].
  rewrite (csv_run_crlf _ _ _ _ H3); [reflexivity|].
  intros ->. destruct H3 as [[? _] | [? | [_ [? | [_ ?]]]]]; discriminate.
Qed.

Lemma csv_run_rows records (results : list ResultRecord) :
  csv_run (records, StartRecord) (csv_rows results)
    = (records ++ map fields_of results, StartRecord).
Proof.
  revert records. induction results as [|[[i q] r] results IH]; intros records.
  - cbn. by rewrite app_nil_r.
  - cbn [csv_rows map]. rewrite csv_run_app.
    change (fields_of (i, q, r)) with [i; q; r].
    rewrite csv_run_writerow, IH, <- app_assoc. reflexivity.
Qed.

(** The loop of [write_results] appends one row per result. *)
Lemma writerow_loop (text : string) (results : list ResultRecord) :
  foldl (fun csv_file result => csv_file +:+ writerow (fields_of result)) text results
    = text +:+ csv_rows results.
Proof.
  revert text. induction results as [|result results IH]; intros text.
  - cbn. by rewrite append_nil_r.
  - cbn [foldl csv_rows]. rewrite IH, append_assoc. reflexivity.
Qed.

Lemma csv_records_rows (results : list ResultRecord) :
  csv_records (writerow ["id"; "query"; "response"] +:+ csv_rows results)
    = ["id"; "query"; "response"] :: map fields_of results.
Proof.
  unfold csv_records. rewrite csv_run_app, csv_run_writerow, csv_run_rows.
  reflexivity.
Qed.

(** What [csv.reader] returns, when it returns, are the records of the
    text. *)
Lemma csv_reader_Returns (text : string) (records : list (list string)) :
  csv_reader text = Returns records -> records = csv_records text.
Proof.
  unfold csv_reader. destruct (forallb _ _); [|discriminate].
  intros H. by injection H as <-.
Qed.

(** ** Paths *)

Lemma append_inv_head (a b c : string) : a +:+ b = a +:+ c -> b = c.
Proof.
  induction a as [|x a IH]; intros H; [exact H|].
  change (String x (a +:+ b) = String x (a +:+ c)) in H.
  injection H as H. auto.
Qed.

Lemma str_truthy_append (a b : string) :
  str_truthy a = true -> str_truthy (a +:+ b) = true.
Proof. destruct a; [discriminate | reflexivity]. Qed.

Lemma rsplit_dot_Some (name before after : string) :
  rsplit_dot name = Some (before, after) ->
  name = before +:+ String "." after.
Proof.
  revert before. induction name as [|c name IH]; intros before H; [discriminate|].
  cbn [rsplit_dot] in H. destruct (rsplit_dot name) as [[b a]|].
  - injection H as <- <-. change (String c name = String c (b +:+ String "." a)).
    f_equal. by apply IH.
  - destruct (Ascii.eqb_spec c ".") as [->|]; [|discriminate].
    injection H as <- <-. reflexivity.
Qed.

Lemma rsplit_dot_None_app (a b : string) :
  rsplit_dot b = None ->
  rsplit_dot (a +:+ String "." b) = Some (a, b).
Proof.
  intros Hb. induction a as [|c a IH].
  - change (rsplit_dot (String "." b) = Some ("", b)).
    cbn [rsplit_dot]. rewrite Hb. reflexivity.
  - change (rsplit_dot (String c (a +:+ String "." b)) = Some (String c a, b)).
    cbn [rsplit_dot]. rewrite IH. reflexivity.
Qed.

(** A name is its stem followed by its suffix. *)
Lemma stem_suffix (name : string) : stem_of name +:+ suffix_of name = name.
Proof.
  unfold stem_of, suffix_of.
  destruct (rsplit_dot name) as [[before after]|] eqn:Hsplit.
  - destruct (str_truthy before && str_truthy after).
    + symmetry. by apply rsplit_dot_Some.
    + apply append_nil_r.
  - apply append_nil_r.
Qed.

Lemma stem_truthy (name : string) :
  str_truthy name = true -> str_truthy (stem_of name) = true.
Proof.
  unfold stem_of. intros Hname.
  destruct (rsplit_dot name) as [[before after]|]; [|exact Hname].
  destruct (str_truthy before) eqn:Hbefore; [|exact Hname].
  destruct (str_truthy after); [exact Hbefore | exact Hname].
Qed.

(** Giving a name the suffix [.csv] keeps its stem. *)
Lemma csv_name (stem : string) :
  str_truthy stem = true ->
  suffix_of (stem +:+ ".csv") = ".csv" /\ stem_of (stem +:+ ".csv") = stem.
Proof.
  intros Hstem. unfold suffix_of, stem_of.
  change (stem +:+ ".csv") with (stem +:+ String "." "csv").
  rewrite (rsplit_dot_None_app stem "csv") by reflexivity.
  rewrite Hstem. split; reflexivity.
Qed.

Lemma path_name_snoc (parent : Path) (name : string) :
  path_name (parent ++ [name]) = name.
Proof. unfold path_name. by rewrite last_snoc. Qed.

Lemma path_parent_snoc (parent : Path) (name : string) :
  path_parent (parent ++ [name]) = parent.
Proof. apply removelast_last. Qed.

Lemma path_parent_name (p : Path) :
  p <> [] -> p = path_parent p ++ [path_name p].
Proof.
  intros Hp. destruct (exists_last Hp) as (parent & name & ->).
  by rewrite path_parent_snoc, path_name_snoc.
Qed.

Lemma with_suffix_csv (p csv_path : Path) :
  with_suffix p ".csv" = Returns csv_path ->
  str_truthy (path_name p) = true /\
  csv_path = path_parent p ++ [stem_of (path_name p) +:+ ".csv"].
Proof.
  unfold with_suffix. change (negb (valid_suffix ".csv")) with false. cbn [negb].
  destruct (str_truthy (path_name p)); cbn [negb]; [|discriminate].
  intros H. injection H as <-. split; reflexivity.
Qed.

(** A path whose suffix is not [.csv] differs from the path that
    [with_suffix] makes of it. *)
Lemma with_suffix_csv_differs (p csv_path : Path) :
  with_suffix p ".csv" = Returns csv_path ->
  suffix_of (path_name p) <> ".csv" ->
  csv_path <> p.
Proof.
  intros Hcsv Hsuffix Heq. apply with_suffix_csv in Hcsv as [Hname ->].
  apply Hsuffix.
  assert (Hlast : path_name p = stem_of (path_name p) +:+ ".csv").
  { rewrite <- Heq at 1. apply path_name_snoc. }
  rewrite <- (stem_suffix (path_name p)) in Hlast at 1.
  by apply append_inv_head in Hlast.
Qed.

(** ** Result Sink *)


(** The directories after [mkdir]: those there were, and the directory
    made with its ancestors. *)
Lemma elem_of_mkdir_parents (p d : Path) (fs : filesystem) :
  p ∈ directories (mkdir_parents d fs) <->
  p ∈ directories fs \/ exists k, (0 < k <= length d)%nat /\ p = take k d.
Proof.
  unfold mkdir_parents. cbn [directories].
  rewrite elem_of_union, elem_of_list_to_set, list_elem_of_fmap.
  split; (intros [H|(k & H1 & H2)]; [by left | right; exists k]).
  - apply elem_of_seq in H2. split; [lia | assumption].
  - split; [assumption | apply elem_of_seq; lia].
Qed.

(** What a run of [write_results] that returns has done. *)
Lemma write_results_returns output_path results fs fs' :
  write_results output_path results fs = (Returns (), fs') ->
  exists csv_path,
    with_suffix output_path ".csv" = Returns csv_path /\
    files fs' =
      <[csv_path := writerow ["id"; "query"; "response"] +:+ csv_rows results]>
        (<[output_path := json_dump (json_data results)]> (files fs)).
Proof.
  unfold write_results, mkdir, write_text. intros H.
  destruct (mkdir_fault (path_parent output_path) fs); [discriminate|].
  destruct (decide (output_path = [] \/
              output_path ∈ directories (mkdir_parents (path_parent output_path) fs)));
    [discriminate|].
  destruct (with_suffix output_path ".csv") as [csv_path|e]; [|discriminate].
  exists csv_path. split; [reflexivity|].
  cbn [directories files] in H.
  destruct (decide (csv_path = [] \/ _)); [discriminate|].
  injection H as <-. cbn [files]. rewrite writerow_loop. reflexivity.
Qed.

(** The sink returns whenever no regular file is in the way of the
    directory of the output path, the path has a name and neither file
    is to be written where a directory is. *)
Lemma write_results_total output_path results fs :
  mkdir_fault (path_parent output_path) fs = None ->
  str_truthy (path_name output_path) = true ->
  output_path ∉ directories (mkdir_parents (path_parent output_path) fs) ->
  path_parent output_path ++ [stem_of (path_name output_path) +:+ ".csv"]
    ∉ directories (mkdir_parents (path_parent output_path) fs) ->
  exists fs', write_results output_path results fs = (Returns (), fs').
Proof.
  intros Hmkdir Hname Hjson Hcsv. unfold write_results, mkdir, write_text.
  rewrite Hmkdir.
  assert (Hne : output_path <> []) by (intros ->; discriminate).
  case_decide as Hdir; [destruct Hdir; done|].
  unfold with_suffix. change (negb (valid_suffix ".csv")) with false.
  rewrite Hname. cbn [negb directories files].
  case_decide as Hdir'; [|by eexists].
  destruct Hdir' as [Hnil|?]; [|done].
  by apply app_nil in Hnil as [_ ?].
Qed.

Lemma with_suffix_csv_same (p : Path) :
  suffix_of (path_name p) = ".csv" -> with_suffix p ".csv" = Returns p.
Proof.
  intros Hsuffix. unfold with_suffix. change (negb (valid_suffix ".csv")) with false.
  cbn [negb].
  assert (Hname : str_truthy (path_name p) = true).
  { destruct (path_name p); [discriminate | reflexivity]. }
  rewrite Hname. cbn [negb]. f_equal.
  rewrite <- Hsuffix, stem_suffix. symmetry. apply path_parent_name.
  intros ->. discriminate.
Qed.

(** C7, amended: when the sink has written a batch under a path whose
    extension is not [.csv], the extension of the tabular file, reading
    the structured-record file back gives the (id, query, response)
    triples of the batch, in the same order. *)
Theorem write_results_round_trip output_path results fs fs' :
  write_results output_path results fs = (Returns (), fs') ->
  suffix_of (path_name output_path) <> ".csv" ->
  exists text,
    files fs' !! output_path = Some text /\
    read_results text = Some results.
Proof.
  intros Hwrite Hsuffix.
  destruct (write_results_returns _ _ _ _ Hwrite) as (csv_path & Hcsv & ->).
  exists (json_dump (json_data results)). split.
  - rewrite lookup_insert_ne by (eapply with_suffix_csv_differs; eassumption).
    apply lookup_insert_eq.
  - apply read_results_json_dump.
Qed.

(** C8, amended: when the sink has written a batch under a path whose
    extension is not [.csv], the tabular file is under the path of the
    structured-record file with the extension replaced by [.csv], which
    differs from that of the structured-record file; its text is the line
    id,query,response followed by one row per record of the batch, and
    its records are the header followed by the id, the query and the
    response of each record, in the order of the batch. *)
Theorem write_results_tabular output_path results fs fs' :
  write_results output_path results fs = (Returns (), fs') ->
  suffix_of (path_name output_path) <> ".csv" ->
  exists csv_path text,
    with_suffix output_path ".csv" = Returns csv_path /\
    path_parent csv_path = path_parent output_path /\
    stem_of (path_name csv_path) = stem_of (path_name output_path) /\
    suffix_of (path_name csv_path) = ".csv" /\
    suffix_of (path_name csv_path) <> suffix_of (path_name output_path) /\
    csv_path <> output_path /\
    files fs' !! csv_path = Some text /\
    text = "id,query,response" +:+ crlf +:+ csv_rows results /\
    csv_records text
      = ["id"; "query"; "response"]
        :: map (fun r : ResultRecord => [result_id r; result_query r; result_response r])
             results /\
    length (csv_records text) = S (length results).
Proof.
  intros Hwrite Hsuffix.
  destruct (write_results_returns _ _ _ _ Hwrite) as (csv_path & Hcsv & Hfiles).
  exists csv_path, (writerow ["id"; "query"; "response"] +:+ csv_rows results).
  pose proof (with_suffix_csv_differs _ _ Hcsv Hsuffix) as Hdiff.
  destruct (with_suffix_csv _ _ Hcsv) as [Hname Hpath].
  destruct (csv_name _ (stem_truthy _ Hname)) as [Hsfx Hstem].
  split; [exact Hcsv|]. rewrite Hpath at 1 2 3 4.
  rewrite path_parent_snoc, path_name_snoc.
  repeat split; try assumption.
  - rewrite Hsfx. congruence.
  - rewrite Hfiles. apply lookup_insert_eq.
  - rewrite csv_records_rows. reflexivity.
  - rewrite csv_records_rows. cbn. by rewrite length_map.
Qed.

(** ** Examples *)

Lemma canned_raises_Exceptions_only : raises_Exceptions_only canned.
Proof.
  intros c w e w' Hcall. destruct w as [|text rest]; cbn in Hcall.
  - injection Hcall as <- _. reflexivity.
  - discriminate.
Qed.

Lemma three_queries_have_columns : Forall has_columns three_queries.
Proof.
  repeat constructor; vm_compute; eexists; reflexivity.
Qed.

Lemma schedule_201 : [2; 0; 1]%nat ≡ₚ seq 0 (length three_queries).
Proof. apply (bool_decide_unpack _). vm_compute. reflexivity. Qed.

(** In the run of the script with a timeout every fault is an
    Exception. *)
Lemma timeout_script_faults :
  faults_are_Exceptions scripted three_queries [2; 0; 1]%nat timeout_script.
Proof.
  intros i item query w_i e Hitem Hq Hstate Hraise.
  destruct i as [|[|[|i]]]; cbn in Hitem; [| | |discriminate Hitem];
    injection Hitem as <-; vm_compute in Hq; injection Hq as <-;
    vm_compute in Hstate; injection Hstate as <-;
    vm_compute in Hraise; try discriminate Hraise;
    injection Hraise as <-; reflexivity.
Qed.

Lemma run_aligned_witness :
  exists batch,
    (run scripted three_queries 32 [2; 0; 1]%nat timeout_script).1
      = Some (Returns batch) /\
    length batch = length three_queries /\
    forall i item, three_queries !! i = Some item ->
      exists record, batch !! i = Some record /\ item !! "id" = Some (result_id record).
Proof.
  destruct (run_aligned scripted three_queries 32 [2; 0; 1]%nat timeout_script)
    as [Haligned Hreturns].
  destruct Hreturns as [batch Hrun].
  - discriminate.
  - lia.
  - exact schedule_201.
  - exact three_queries_have_columns.
  - exact timeout_script_faults.
  - exists batch. split; [exact Hrun | exact (Haligned batch Hrun)].
Defined.

Lemma run_not_aligned_counterexample :
  (~ exists batch,
       (run canned [] 32 [] ["Try tofu scramble."]).1 = Some (Returns batch) /\
       length batch = length ([] : list row)) /\
  (~ exists batch,
       (run scripted [query_row "1" "vegan breakfast?"] 32 [0%nat]
          [Raises (BaseExceptionOnly "SystemExit()")]).1 = Some (Returns batch)).
Proof.
  split.
  - intros (batch & Hrun & _). vm_compute in Hrun. discriminate.
  - intros (batch & Hrun). vm_compute in Hrun. discriminate.
Qed.

Lemma run_isolates_faults_witness :
  (forall batch,
     (run scripted three_queries 32 [2; 0; 1]%nat timeout_script).1 = Some (Returns batch) ->
     batch !! 0%nat
       = Some ("1", "vegan breakfast?",
               "Error: " +:+ repr (ExceptionInstance "TimeoutError('timed out')")) /\
     forall j item_j, three_queries !! j = Some item_j ->
       exists w_j record,
         state_at (dispatch scripted) [2; 0; 1]%nat three_queries timeout_script j
           = Some w_j /\
         (dispatch scripted item_j w_j).1 = Returns record /\
         batch !! j = Some record) /\
  (forall e',
     (run scripted three_queries 32 [2; 0; 1]%nat timeout_script).1 = Some (Raises e') ->
     exists j item_j w_j,
       j <> 0%nat /\ three_queries !! j = Some item_j /\
       state_at (dispatch scripted) [2; 0; 1]%nat three_queries timeout_script j
         = Some w_j /\
       (dispatch scripted item_j w_j).1 = Raises e') /\
  (run scripted three_queries 32 [2; 0; 1]%nat timeout_script).1 <> None.
Proof.
  apply (proj1 (proj2 (run_isolates_faults scripted))
           three_queries 32 [2; 0; 1]%nat timeout_script 0%nat
           (query_row "1" "vegan breakfast?") "1" "vegan breakfast?"
           (tail timeout_script) (ExceptionInstance "TimeoutError('timed out')")).
  - lia.
  - exact schedule_201.
  - reflexivity.
  - vm_compute. reflexivity.
  - vm_compute. reflexivity.
  - vm_compute. reflexivity.
  - reflexivity.
  - reflexivity.
Defined.

Lemma process_query_fault_counterexample :
  (scripted [Turn "user" "vegan breakfast?"]
     [Raises (BaseExceptionOnly "SystemExit()")]).1
    = Raises (BaseExceptionOnly "SystemExit()") /\
  (~ exists record,
       (process_query scripted "1" "vegan breakfast?"
          [Raises (BaseExceptionOnly "SystemExit()")]).1 = Returns record) /\
  (run scripted [query_row "1" "vegan breakfast?"] 32 [0%nat]
     [Raises (BaseExceptionOnly "SystemExit()")]).1
    = Some (Raises (BaseExceptionOnly "SystemExit()")).
Proof.
  split; [reflexivity|]. split.
  - intros [record Hrec]. vm_compute in Hrec. discriminate.
  - vm_compute. reflexivity.
Qed.

Lemma process_query_assistant_reply_witness :
  process_query scripted "1" "vegan breakfast?"
    [reply [Turn "user" "vegan breakfast?"] "Try tofu scramble."]
  = (Returns ("1", "vegan breakfast?", "Try tofu scramble."), []).
Proof.
  apply (process_query_assistant_reply scripted "1" "vegan breakfast?" _
           [Turn "user" "vegan breakfast?"; Turn "assistant" "Try tofu scramble."]
           (Turn "assistant" "Try tofu scramble.")); reflexivity.
Defined.

Lemma process_query_no_assistant_reply_witness :
  process_query scripted "1" "vegan breakfast?"
    [Returns [Turn "user" "vegan breakfast?"]]
  = (Returns ("1", "vegan breakfast?", "Error: No assistant reply found"), []).
Proof.
  apply (process_query_no_assistant_reply scripted "1" "vegan breakfast?" _
           [Turn "user" "vegan breakfast?"] (Turn "user" "vegan breakfast?"));
    [reflexivity | reflexivity | discriminate].
Defined.

Lemma process_query_empty_conversation_witness :
  getitem_last ([] : conversation) = Raises IndexError /\
  process_query scripted "1" "vegan breakfast?" [Returns []]
    = (Returns ("1", "vegan breakfast?", "Error: No assistant reply found"), []) /\
  "Error: No assistant reply found" <> "Error: " +:+ repr IndexError.
Proof.
  apply (process_query_empty_conversation scripted "1" "vegan breakfast?"
           [Returns []] []).
  reflexivity.
Defined.

(** The scenario of the specification: the second row has no query. *)
Example read_queries_scenario :
  read_queries [query_row "1" "vegan breakfast?"; query_row "2" ""]
    = [query_row "1" "vegan breakfast?"].
Proof. vm_compute. reflexivity. Qed.

(** The path [run_bulk_test] writes to has the extension [.json],
    whatever the timestamp. *)
Lemma results_path_suffix (timestamp : string) :
  suffix_of (path_name (results_path timestamp)) = ".json".
Proof.
  change (path_name (results_path timestamp))
    with ("results_" +:+ timestamp +:+ ".json").
  rewrite <- (append_assoc "results_" timestamp ".json").
  change (("results_" +:+ timestamp) +:+ ".json")
    with (("results_" +:+ timestamp) +:+ String "." "json").
  unfold suffix_of. rewrite (rsplit_dot_None_app _ "json") by reflexivity.
  reflexivity.
Qed.

Lemma write_two_results :
  write_results (results_path "20250101_120000") two_results empty_disk
  = (Returns (),
     (write_results (results_path "20250101_120000") two_results empty_disk).2).
Proof. vm_compute. reflexivity. Qed.

Lemma write_results_round_trip_witness :
  exists text,
    files (write_results (results_path "20250101_120000") two_results empty_disk).2
      !! results_path "20250101_120000" = Some text /\
    read_results text = Some two_results.
Proof.
  apply (write_results_round_trip (results_path "20250101_120000") two_results empty_disk).
  - exact write_two_results.
  - rewrite results_path_suffix. discriminate.
Defined.

Lemma write_results_tabular_witness :
  exists csv_path text,
    with_suffix (results_path "20250101_120000") ".csv" = Returns csv_path /\
    path_parent csv_path = path_parent (results_path "20250101_120000") /\
    stem_of (path_name csv_path) = stem_of (path_name (results_path "20250101_120000")) /\
    suffix_of (path_name csv_path) = ".csv" /\
    suffix_of (path_name csv_path)
      <> suffix_of (path_name (results_path "20250101_120000")) /\
    csv_path <> results_path "20250101_120000" /\
    files (write_results (results_path "20250101_120000") two_results empty_disk).2
      !! csv_path = Some text /\
    text = "id,query,response" +:+ crlf +:+ csv_rows two_results /\
    csv_records text
      = ["id"; "query"; "response"]
        :: map (fun r : ResultRecord => [result_id r; result_query r; result_response r])
             two_results /\
    length (csv_records text) = S (length two_results).
Proof.
  apply (write_results_tabular (results_path "20250101_120000") two_results empty_disk).
  - exact write_two_results.
  - rewrite results_path_suffix. discriminate.
Defined.

(** Under a path that has the extension [.csv] already, the sink
    returns, and what is left under the path does not read back as the
    batch. *)
Lemma write_results_round_trip_counterexample :
  (write_results ["out.csv"] two_results empty_disk).1 = Returns () /\
  ~ exists text,
      files (write_results ["out.csv"] two_results empty_disk).2 !! ["out.csv"]
        = Some text /\
      read_results text = Some two_results.
Proof.
  split; [vm_compute; reflexivity|].
  intros (text & Hfile & Hread).
  vm_compute in Hfile. injection Hfile as <-.
  vm_compute in Hread. discriminate Hread.
Qed.

(** Under such a path the sink returns, and the tabular file is under
    the very path of the structured-record file: no path with another
    extension is made. *)
Lemma write_results_tabular_counterexample :
  (write_results ["out.csv"] two_results empty_disk).1 = Returns () /\
  ~ exists csv_path,
      with_suffix ["out.csv"] ".csv" = Returns csv_path /\
      suffix_of (path_name csv_path) <> suffix_of (path_name ["out.csv"]).
Proof.
  split; [vm_compute; reflexivity|].
  intros (csv_path & Hcsv & Hdiff).
  vm_compute in Hcsv. injection Hcsv as <-. by apply Hdiff.
Qed.

(** The scenario of the specification from end to end: the second row
    has no query; with a budget of 5 the run writes one entry to the
    structured-record file and the header and one row to the tabular
    file. *)
Example run_bulk_test_scenario :
  let '(_, _, fs) :=
    run_bulk_test canned
      [query_row "1" "vegan breakfast?"; query_row "2" ""] 5 [0%nat]
      "20250101_120000" ["Try tofu scramble."] empty_disk in
  (read_results <$> files fs !! ["results"; "results_20250101_120000.json"])
    = Some (Some [("1", "vegan breakfast?", "Try tofu scramble.")]) /\
  (csv_reader <$> files fs !! ["results"; "results_20250101_120000.csv"])
    = Some (Returns [["id"; "query"; "response"];
                     ["1"; "vegan breakfast?"; "Try tofu scramble."]]).
Proof. vm_compute. split; reflexivity. Qed.

(** * Further properties *)

(** ** Bulk Query Runner *)

Section RunnerMore.

Context {world : Type}.
Variable get_agent_response : conversation -> world -> outcome conversation * world.

Lemma run_without_workers_eq queries num_workers schedule w :
  num_workers <= 0 ->
  run get_agent_response queries num_workers schedule w
    = (Some (Raises (ValueError "max_workers must be greater than 0")), w).
Proof.
  intros Hbudget. unfold run, ThreadPoolExecutor.
  destruct (Z.leb_spec (Z.min num_workers (Z.of_nat (length queries))) 0)
    as [_|Hlt]; [reflexivity | lia].
Qed.

(** X1: a worker budget of zero or less makes the runner raise the
    ValueError of the pool constructor whatever the records are; no
    dispatch runs and the adapter is not called. *)
Theorem run_without_workers queries num_workers schedule w :
  num_workers <= 0 ->
  run get_agent_response queries num_workers schedule w
    = (Some (Raises (ValueError "max_workers must be greater than 0")), w).
Proof.
  intros Hbudget. unfold run.
  assert (Hpool : ThreadPoolExecutor (Z.min num_workers (Z.of_nat (length queries)))
                  = Raises (ValueError "max_workers must be greater than 0")).
  { unfold ThreadPoolExecutor.
    destruct (Z.leb_spec (Z.min num_workers (Z.of_nat (length queries))) 0);
      [reflexivity | lia]. }
  rewrite Hpool. reflexivity.
Qed.

Lemma result_iterator_first_raise {A : Type} (futures : list (future A)) i e :
  futures !! i = Some (Some (Raises e)) ->
  (forall j, (j < i)%nat -> exists a, futures !! j = Some (Some (Returns a))) ->
  result_iterator futures = Some (Raises e).
Proof.
  revert i. induction futures as [|f futures IH]; intros i Hi Hbefore; [discriminate|].
  destruct i as [|i].
  - cbn in Hi. injection Hi as ->. reflexivity.
  - destruct (Hbefore 0%nat ltac:(lia)) as [a Ha]. cbn in Ha. injection Ha as ->.
    cbn [result_iterator]. rewrite (IH i Hi); [reflexivity|].
    intros j Hj. apply (Hbefore (S j)). lia.
Qed.

(** X2: when dispatches fail (a record lacks a column, or the adapter
    raises a fault that is not an Exception), the runner raises the
    fault of the failed dispatch at the lowest position, whatever the
    order in which the dispatches completed, and returns no batch. *)
Theorem run_raises_first_failure queries num_workers schedule w i item w_i e :
  0 < num_workers ->
  schedule ≡ₚ seq 0 (length queries) ->
  queries !! i = Some item ->
  state_at (dispatch get_agent_response) schedule queries w i = Some w_i ->
  (dispatch get_agent_response item w_i).1 = Raises e ->
  (forall j item_j w_j, (j < i)%nat -> queries !! j = Some item_j ->
     state_at (dispatch get_agent_response) schedule queries w j = Some w_j ->
     exists record, (dispatch get_agent_response item_j w_j).1 = Returns record) ->
  (run get_agent_response queries num_workers schedule w).1 = Some (Raises e).
Proof.
  intros Hpos Hperm Hitem Hstate Hraise Hbefore.
  assert (Hne : queries <> []) by (intros ->; discriminate).
  rewrite run_result_iterator by assumption.
  apply (result_iterator_first_raise _ i).
  - destruct (run_workers_complete get_agent_response schedule queries w i item
                Hperm Hitem) as (w_i' & Hstate' & ->).
    rewrite Hstate in Hstate'. injection Hstate' as <-. by rewrite Hraise.
  - intros j Hj.
    destruct (lookup_lt_is_Some_2 queries j) as [item_j Hitem_j].
    { apply lookup_lt_Some in Hitem. lia. }
    destruct (run_workers_complete get_agent_response schedule queries w j item_j
                Hperm Hitem_j) as (w_j & Hstate_j & ->).
    destruct (Hbefore j item_j w_j Hj Hitem_j Hstate_j) as [record ->].
    by exists record.
Qed.

Lemma dispatch_stateless item w1 w2 :
  stateless get_agent_response ->
  (dispatch get_agent_response item w1).1 = (dispatch get_agent_response item w2).1.
Proof.
  intros Hstateless. unfold dispatch.
  destruct (dict_getitem item "id") as [query_id|]; [|reflexivity].
  destruct (dict_getitem item "query") as [query|]; [|reflexivity].
  unfold process_query. specialize (Hstateless [Turn "user" query] w1 w2).
  destruct (get_agent_response [Turn "user" query] w1) as [a1 w1'].
  destruct (get_agent_response [Turn "user" query] w2) as [a2 w2'].
  cbn in *. by subst.
Qed.

(** X3: with an adapter whose answer depends on the conversation alone,
    the outcome of the runner is the same for every completion order:
    two runs over the same records return the same batch (or raise the
    same fault) whatever the schedules and the states they start in. *)
Theorem run_schedule_independent queries num_workers schedule1 schedule2 w1 w2 :
  stateless get_agent_response ->
  schedule1 ≡ₚ seq 0 (length queries) ->
  schedule2 ≡ₚ seq 0 (length queries) ->
  (run get_agent_response queries num_workers schedule1 w1).1
    = (run get_agent_response queries num_workers schedule2 w2).1.
Proof.
  intros Hstateless Hperm1 Hperm2.
  destruct (Z.le_gt_cases num_workers 0) as [Hle|Hpos].
  { by rewrite !run_without_workers_eq by assumption. }
  destruct (decide (queries = [])) as [->|Hne].
  { unfold run. cbn [length]. destruct (ThreadPoolExecutor _) eqn:Hpool; [|reflexivity].
    unfold ThreadPoolExecutor in Hpool.
    destruct (Z.leb_spec (Z.min num_workers (Z.of_nat 0)) 0); [discriminate | lia]. }
  rewrite !run_result_iterator by (assumption || lia).
  apply (f_equal result_iterator).
  apply list_eq. intros i.
  destruct (queries !! i) as [item|] eqn:Hitem.
  - destruct (run_workers_complete get_agent_response schedule1 queries w1 i item
                Hperm1 Hitem) as (u1 & _ & H1).
    destruct (run_workers_complete get_agent_response schedule2 queries w2 i item
                Hperm2 Hitem) as (u2 & _ & H2).
    rewrite (dispatch_stateless item u1 u2 Hstateless) in H1.
    exact (eq_trans H1 (eq_sym H2)).
  - apply lookup_ge_None in Hitem.
    assert (Hnone : forall schedule w,
              (run_workers (dispatch get_agent_response) schedule queries
                 (replicate (length queries) None) w).1 !! i = None).
    { intros schedule w. apply lookup_ge_None.
      rewrite run_workers_length, length_replicate. exact Hitem. }
    exact (eq_trans (Hnone schedule1 w1) (eq_sym (Hnone schedule2 w2))).
Qed.

End RunnerMore.

Lemma run_without_workers_witness :
  run canned three_queries 0 [2; 0; 1]%nat ["Try tofu scramble."]
    = (Some (Raises (ValueError "max_workers must be greater than 0")),
       ["Try tofu scramble."]).
Proof. apply (run_without_workers canned three_queries 0). lia. Defined.

Lemma run_raises_first_failure_witness :
  (run scripted three_queries 32 [2; 1; 0]%nat two_faults).1
    = Some (Raises (BaseExceptionOnly "CancelledError()")).
Proof.
  apply (run_raises_first_failure scripted three_queries 32 [2; 1; 0]%nat two_faults
           1%nat (query_row "2" "quick dinner?") (tail two_faults)).
  - lia.
  - apply (bool_decide_unpack _). vm_compute. reflexivity.
  - reflexivity.
  - vm_compute. reflexivity.
  - vm_compute. reflexivity.
  - intros j item_j w_j Hj Hitem Hstate.
    assert (j = 0%nat) as -> by lia.
    injection Hitem as <-. vm_compute in Hstate. injection Hstate as <-.
    eexists. vm_compute. reflexivity.
Defined.

Lemma parrot_stateless {world : Type} : stateless (@parrot world).
Proof. intros c w1 w2. reflexivity. Qed.

Lemma run_schedule_independent_witness :
  (run parrot three_queries 2 [2; 0; 1]%nat 7%nat).1
    = (run parrot three_queries 2 [0; 1; 2]%nat 9%nat).1.
Proof.
  apply (run_schedule_independent parrot three_queries 2).
  - exact parrot_stateless.
  - exact schedule_201.
  - reflexivity.
Defined.

(** ** Result Sink *)

(** X4: whatever the sink does, it only adds directories and it
    changes no file other than the two it writes.  When the directory of
    the output path is a regular file, or a path above it is one, the
    sink raises the fault of [mkdir] and leaves the disk as it was;
    otherwise that directory and the paths above it are directories
    afterwards. *)
Theorem write_results_frame output_path results fs :
  let fs' := (write_results output_path results fs).2 in
  directories fs ⊆ directories fs' /\
  (forall p, p <> output_path -> with_suffix output_path ".csv" <> Returns p ->
     files fs' !! p = files fs !! p) /\
  (is_file fs (path_parent output_path) ->
   write_results output_path results fs = (Raises FileExistsError, fs)) /\
  (~ is_file fs (path_parent output_path) ->
   Exists (is_file fs) (path_parents (path_parent output_path)) ->
   write_results output_path results fs = (Raises NotADirectoryError, fs)) /\
  (~ is_file fs (path_parent output_path) ->
   ~ Exists (is_file fs) (path_parents (path_parent output_path)) ->
   forall k, (0 < k <= length (path_parent output_path))%nat ->
     take k (path_parent output_path) ∈ directories fs').
Proof.
  cbn zeta. unfold write_results, mkdir, mkdir_fault.
  case_decide as Hfile.
  { cbn [snd]. repeat split; try done. }
  case_decide as Habove.
  { cbn [snd]. repeat split; try done. }
  assert (Hmk : directories fs ⊆ directories (mkdir_parents (path_parent output_path) fs) /\
                forall k, (0 < k <= length (path_parent output_path))%nat ->
                  take k (path_parent output_path)
                    ∈ directories (mkdir_parents (path_parent output_path) fs)).
  { split.
    - intros p Hp. apply elem_of_mkdir_parents. by left.
    - intros k Hk. apply elem_of_mkdir_parents. right. by exists k. }
  destruct Hmk as [Hsub Hanc].
  unfold write_text.
  case_decide as Hdir; [cbn [snd]; repeat split; try done; auto|].
  destruct (with_suffix output_path ".csv") as [csv_path|e] eqn:Hcsv.
  - cbn [directories files]. case_decide as Hdir'; cbn [snd directories files].
    + repeat split; try done; auto.
      intros p Hp _. by rewrite lookup_insert_ne.
    + repeat split; try done; auto.
      intros p Hp Hp'. rewrite !lookup_insert_ne; [reflexivity | done | congruence].
  - cbn [snd directories files]. repeat split; try done; auto.
    intros p Hp _. by rewrite lookup_insert_ne.
Qed.

Lemma header_is_not_json (rest : string) :
  read_results (writerow ["id"; "query"; "response"] +:+ rest) = None.
Proof.
  unfold read_results, json_load, tokenize. rewrite lex_app.
  replace (lex (Some ([], Between)) (writerow ["id"; "query"; "response"]))
    with (@None (list token * lex_mode)) by (vm_compute; reflexivity).
  rewrite lex_None. reflexivity.
Qed.

(** X5: when the output path already has the extension [.csv], the
    tabular file is written over the structured-record file: what is
    left under the output path is the tabular text, which does not read
    as JSON. *)
Theorem write_results_csv_overwrites output_path results fs fs' :
  suffix_of (path_name output_path) = ".csv" ->
  write_results output_path results fs = (Returns (), fs') ->
  with_suffix output_path ".csv" = Returns output_path /\
  files fs' !! output_path
    = Some (writerow ["id"; "query"; "response"] +:+ csv_rows results) /\
  read_results (writerow ["id"; "query"; "response"] +:+ csv_rows results) = None.
Proof.
  intros Hsuffix Hwrite.
  pose proof (with_suffix_csv_same _ Hsuffix) as Hsame.
  destruct (write_results_returns _ _ _ _ Hwrite) as (csv_path & Hcsv & ->).
  rewrite Hsame in Hcsv. injection Hcsv as <-.
  split; [exact Hsame|]. split; [apply lookup_insert_eq | apply header_is_not_json].
Qed.


Lemma write_results_frame_witness :
  write_results (results_path "20250101_120000") two_results disk_with_results_file
    = (Raises FileExistsError, disk_with_results_file).
Proof.
  pose proof (write_results_frame (results_path "20250101_120000") two_results
                disk_with_results_file) as H.
  cbn zeta in H. destruct H as (_ & _ & Hraises & _).
  apply Hraises. apply (bool_decide_unpack _). vm_compute. exact I.
Defined.

Lemma write_results_csv_overwrites_witness :
  with_suffix ["out.csv"] ".csv" = Returns ["out.csv"] /\
  files (write_results ["out.csv"] two_results empty_disk).2 !! ["out.csv"]
    = Some (writerow ["id"; "query"; "response"] +:+ csv_rows two_results) /\
  read_results (writerow ["id"; "query"; "response"] +:+ csv_rows two_results) = None.
Proof.
  apply (write_results_csv_overwrites ["out.csv"] two_results empty_disk).
  - reflexivity.
  - vm_compute. reflexivity.
Defined.


(** ** The whole run *)

Lemma results_path_name (timestamp : string) :
  path_name (results_path timestamp) = ("results_" +:+ timestamp) +:+ String "." "json".
Proof.
  change (path_name (results_path timestamp))
    with ("results_" +:+ timestamp +:+ ".json").
  by rewrite <- append_assoc.
Qed.

(** The path of the tabular file of a run. *)
Lemma results_path_csv (timestamp : string) :
  with_suffix (results_path timestamp) ".csv"
    = Returns ["results"; "results_" +:+ timestamp +:+ ".csv"].
Proof.
  unfold with_suffix. change (negb (valid_suffix ".csv")) with false. cbn [negb].
  unfold stem_of. rewrite results_path_name.
  rewrite (rsplit_dot_None_app _ "json") by reflexivity.
  cbn [str_truthy andb negb]. rewrite append_assoc. reflexivity.
Qed.

Lemma run_nil {world : Type}
    (adapter : conversation -> world -> outcome conversation * world)
    num_workers schedule w :
  run adapter [] num_workers schedule w
    = (Some (Raises (ValueError "max_workers must be greater than 0")), w).
Proof.
  unfold run, ThreadPoolExecutor.
  destruct (Z.leb_spec (Z.min num_workers (Z.of_nat (length ([] : list row)))) 0)
    as [_|Hlt]; [reflexivity | cbn in Hlt; lia].
Qed.

Section WholeRun.

Context {world : Type}.
Variable get_agent_response : conversation -> world -> outcome conversation * world.

(** X8: when no row of the input has both a non-empty id and a
    non-empty query (a file with the header only, or without a query
    column), the run raises the ValueError of the pool constructor, does
    not call the adapter and writes nothing. *)
Theorem run_bulk_test_without_queries reader num_workers schedule timestamp w fs :
  Forall (fun r => ~ is_QueryRecord r) reader ->
  run_bulk_test get_agent_response reader num_workers schedule timestamp w fs
    = (Some (Raises (ValueError "max_workers must be greater than 0")), w, fs).
Proof.
  intros Hnone. unfold run_bulk_test.
  assert (Hempty : read_queries reader = []).
  { rewrite read_queries_filter. induction Hnone as [|r reader Hr _ IH]; [reflexivity|].
    rewrite filter_cons_False by assumption. exact IH. }
  rewrite Hempty, run_nil. reflexivity.
Qed.

(** X9: whenever the run returns, the runner has returned a batch
    with one record per row that passed the reader, in the order of the
    file, each with the id and the query of its row, whatever the order
    in which the dispatches completed; the structured-record file reads
    back as that batch, and the records of the tabular file are the
    header followed by the id, the query and the response of each record
    of the batch. *)
Theorem run_bulk_test_writes_batch reader num_workers schedule timestamp w fs w' fs' :
  run_bulk_test get_agent_response reader num_workers schedule timestamp w fs
    = (Some (Returns ()), w', fs') ->
  exists batch,
    run get_agent_response (read_queries reader) num_workers schedule w
      = (Some (Returns batch), w') /\
    length batch = length (read_queries reader) /\
    (forall i item, read_queries reader !! i = Some item ->
       exists record, batch !! i = Some record /\
         item !! "id" = Some (result_id record) /\
         item !! "query" = Some (result_query record)) /\
    read_results <$> files fs' !! results_path timestamp = Some (Some batch) /\
    csv_records <$> files fs' !! ["results"; "results_" +:+ timestamp +:+ ".csv"]
      = Some (["id"; "query"; "response"]
              :: map (fun r : ResultRecord =>
                        [result_id r; result_query r; result_response r]) batch).
Proof.
  unfold run_bulk_test. intros H.
  destruct (run get_agent_response (read_queries reader) num_workers schedule w)
    as [[[batch|e]|] w1] eqn:Hrun; try discriminate.
  destruct (write_results (results_path timestamp) batch fs) as [written fs1] eqn:Hwrite.
  injection H as -> <- <-.
  exists batch. split; [reflexivity|].
  destruct (run_returned_aligned get_agent_response (read_queries reader) num_workers
              schedule w batch) as [Hlen Hbatch]; [by rewrite Hrun|].
  split; [exact Hlen|]. split; [exact Hbatch|].
  destruct (write_results_returns _ _ _ _ Hwrite) as (csv_path & Hpath & Hfiles).
  rewrite results_path_csv in Hpath. injection Hpath as <-.
  rewrite Hfiles. split.
  - rewrite lookup_insert_ne
      by (apply (with_suffix_csv_differs (results_path timestamp));
          [apply results_path_csv | rewrite results_path_suffix; discriminate]).
    rewrite lookup_insert_eq. cbn. by rewrite read_results_json_dump.
  - rewrite lookup_insert_eq. cbn. by rewrite csv_records_rows.
Qed.

End WholeRun.

Lemma run_bulk_test_without_queries_witness :
  run_bulk_test canned rows_without_query 32 [] "20250101_120000"
    ["Try tofu scramble."] empty_disk
  = (Some (Raises (ValueError "max_workers must be greater than 0")),
     ["Try tofu scramble."], empty_disk).
Proof.
  apply (run_bulk_test_without_queries canned rows_without_query).
  repeat constructor; intros [_ [H _]]; vm_compute in H; congruence.
Defined.

Lemma four_rows_run :
  run_bulk_test canned four_rows 2 [2; 0; 1]%nat "20250101_120000"
    ["Try tofu scramble."] empty_disk
  = (Some (Returns ()), [],
     (run_bulk_test canned four_rows 2 [2; 0; 1]%nat "20250101_120000"
        ["Try tofu scramble."] empty_disk).2).
Proof. vm_compute. reflexivity. Qed.

Lemma run_bulk_test_writes_batch_witness :
  exists batch,
    run canned (read_queries four_rows) 2 [2; 0; 1]%nat ["Try tofu scramble."]
      = (Some (Returns batch), []) /\
    length batch = length (read_queries four_rows) /\
    (forall i item, read_queries four_rows !! i = Some item ->
       exists record, batch !! i = Some record /\
         item !! "id" = Some (result_id record) /\
         item !! "query" = Some (result_query record)) /\
    read_results
      <$> files (run_bulk_test canned four_rows 2 [2; 0; 1]%nat "20250101_120000"
                   ["Try tofu scramble."] empty_disk).2
          !! results_path "20250101_120000" = Some (Some batch) /\
    csv_records
      <$> files (run_bulk_test canned four_rows 2 [2; 0; 1]%nat "20250101_120000"
                   ["Try tofu scramble."] empty_disk).2
          !! ["results"; "results_" +:+ "20250101_120000" +:+ ".csv"]
      = Some (["id"; "query"; "response"]
              :: map (fun r : ResultRecord =>
                        [result_id r; result_query r; result_response r]) batch).
Proof.
  apply (run_bulk_test_writes_batch canned four_rows 2 [2; 0; 1]%nat "20250101_120000"
           ["Try tofu scramble."] empty_disk).
  exact four_rows_run.
Defined.

(** ** Reading the query file *)

(** The reader gets back any row the writer wrote, whatever its fields. *)
Lemma csv_run_field_in_row records done (f : string) :
  exists mode',
    csv_run (records, StartField done) (csv_field false f) = (records, mode') /\
    holds mode' done f /\ mode' <> StartRecord.
Proof.
  unfold csv_field. rewrite andb_false_l, orb_false_r.
  destruct (csv_needs_quotes f) eqn:Hf.
  - exists (QuoteInQuotedField done f).
    split; [|split; [right; left; reflexivity | discriminate]].
    change (String "034" (csv_double_quotes f +:+ String "034" ""))
      with (String "034" "" +:+ csv_double_quotes f +:+ String "034" "").
    rewrite !csv_run_app.
    change (csv_run (records, StartField done) (String "034" ""))
      with (records, InQuotedField done "").
    rewrite csv_run_quoted. reflexivity.
  - destruct f as [|c f].
    + exists (StartField done).
      split; [reflexivity | split; [|discriminate]].
      right; right. split; [reflexivity | left; reflexivity].
    + cbn in Hf. apply orb_false_elim in Hf as [Hc Hf].
      exists (InField done (String c f)).
      split; [|split; [left; split; reflexivity | discriminate]].
      cbn [csv_run]. rewrite (csv_step_plain_first _ _ done) by (assumption || by left).
      rewrite csv_run_plain by assumption. reflexivity.
Qed.

Lemma csv_run_more_fields records done (fields : list string) :
  fields <> [] ->
  csv_run (records, StartField done)
          (str_join "," (map (csv_field false) fields) +:+ crlf)
    = (records ++ [done ++ fields], StartRecord).
Proof.
  revert done. induction fields as [|f [|g fields] IH]; intros done Hne.
  - congruence.
  - change (str_join "," (map (csv_field false) [f])) with (csv_field false f).
    rewrite csv_run_app.
    destruct (csv_run_field_in_row records done f) as (mode' & -> & Hholds & Hmode).
    apply csv_run_crlf; assumption.
  - change (str_join "," (map (csv_field false) (f :: g :: fields)))
      with (csv_field false f +:+ "," +:+ str_join "," (map (csv_field false) (g :: fields))).
    rewrite !append_assoc, csv_run_app.
    destruct (csv_run_field_in_row records done f) as (mode' & -> & Hholds & _).
    rewrite csv_run_app.
    change (csv_run (records, mode') ",") with (csv_step (records, mode') ",").
    rewrite (csv_step_comma _ _ _ _ Hholds).
    rewrite IH by discriminate. rewrite <- app_assoc. reflexivity.
Qed.

Lemma csv_run_any_row records (fields : list string) :
  csv_run (records, StartRecord) (writerow fields) = (records ++ [fields], StartRecord).
Proof.
  unfold writerow. destruct fields as [|f [|g fields]].
  - reflexivity.
  - cbn [length Nat.eqb map str_join]. destruct f as [|c f].
    + reflexivity.
    + change (csv_field true (String c f)) with (csv_field false (String c f)).
      rewrite csv_run_app.
      destruct (csv_run_field records StartRecord [] (String c f))
        as (mode' & -> & Hholds); [right; split; reflexivity|].
      apply (csv_run_crlf _ _ [] _ Hholds).
      intros ->. destruct Hholds as [[? _] | [? | [? _]]]; discriminate.
  - change (length (f :: g :: fields) =? 1)%nat with false.
    change (str_join "," (map (csv_field false) (f :: g :: fields)))
      with (csv_field false f +:+ "," +:+ str_join "," (map (csv_field false) (g :: fields))).
    rewrite !append_assoc, csv_run_app.
    destruct (csv_run_field records StartRecord [] f)
      as (mode' & -> & Hholds); [right; split; reflexivity|].
    rewrite csv_run_app.
    change (csv_run (records, mode') ",") with (csv_step (records, mode') ",").
    rewrite (csv_step_comma _ _ _ _ Hholds).
    rewrite csv_run_more_fields by discriminate. reflexivity.
Qed.

Lemma dict_zip_nil_l (values : list string) : dict_zip [] values = ∅.
Proof. reflexivity. Qed.

Lemma foldl_insert_lookup_None (pairs : list (string * string)) (d : row) (k : string) :
  k ∉ pairs.*1 -> d !! k = None ->
  foldl (fun d kv => <[kv.1 := kv.2]> d) d pairs !! k = None.
Proof.
  revert d. induction pairs as [|[k' v] pairs IH]; intros d Hk Hd; [exact Hd|].
  cbn in Hk. apply not_elem_of_cons in Hk as [Hne Hk].
  cbn [foldl]. apply IH; [exact Hk|]. by rewrite lookup_insert_ne.
Qed.

(** A field name the header lacks is a key no row has. *)
Lemma dict_zip_lookup_None (fieldnames values : list string) (k : string) :
  k ∉ fieldnames -> dict_zip fieldnames values !! k = None.
Proof.
  intros Hk. apply foldl_insert_lookup_None; [|apply lookup_empty].
  intros Hin. apply Hk. apply list_elem_of_fmap in Hin as ([k' v] & -> & Hin).
  by apply elem_of_zip_l in Hin.
Qed.

Lemma restval_lookup_None (fieldnames values : list string) (d : row) (k : string) :
  d !! k = None -> restval fieldnames values d !! k = None.
Proof.
  unfold restval. generalize (drop (length values) fieldnames). intros keys.
  revert d. induction keys as [|key keys IH]; intros d Hd; [exact Hd|].
  cbn [foldl]. apply IH. apply lookup_delete_None. by right.
Qed.

(** X10: when the header of the file has no column named id, or none
    named query, the reader returns no record at all, whatever the rows
    hold, and raises nothing. *)
Theorem read_queries_without_column (fieldnames : list string)
    (rows : list (list string)) :
  "id" ∉ fieldnames \/ "query" ∉ fieldnames ->
  read_queries (DictReader (fieldnames :: rows)) = [].
Proof.
  intros Hmissing. rewrite read_queries_filter. cbn [DictReader].
  induction (filter (fun r => r <> []) rows) as [|r rest IH]; [reflexivity|].
  cbn [map]. rewrite filter_cons_False; [exact IH|].
  intros [[Hid _] [Hq _]].
  destruct Hmissing as [H|H]; [apply Hid | apply Hq];
    by apply restval_lookup_None, dict_zip_lookup_None.
Qed.

Lemma read_queries_without_column_witness :
  read_queries
    (DictReader (["id"; "question"] :: [["1"; "vegan breakfast?"]; ["2"; "quick dinner?"]]))
  = [].
Proof.
  apply (read_queries_without_column ["id"; "question"]).
  right. apply (bool_decide_unpack _). vm_compute. exact I.
Defined.

Lemma dict_zip_id_query (i q : string) (extra : list string) :
  dict_zip ["id"; "query"] (i :: q :: extra) = query_row i q.
Proof.
  unfold dict_zip, query_row. cbn [zip zip_with foldl fst snd].
  apply map_eq. intros k.
  destruct (decide (k = "query")) as [->|Hq].
  - rewrite lookup_insert_eq, lookup_insert_ne by discriminate.
    by rewrite lookup_singleton_eq.
  - rewrite lookup_insert_ne by congruence.
    destruct (decide (k = "id")) as [->|Hid].
    + by rewrite !lookup_insert_eq.
    + rewrite !lookup_insert_ne by congruence.
      by rewrite lookup_singleton_ne, lookup_empty by congruence.
Qed.

Lemma read_queries_query_row (i q : string) (rest : list row) :
  read_queries (query_row i q :: rest)
    = (if str_truthy i && str_truthy q then [query_row i q] else [])
      ++ read_queries rest.
Proof.
  unfold read_queries. cbn [List.filter].
  replace (get_truthy (query_row i q) "id") with (str_truthy i).
  2:{ unfold get_truthy, dict_get, query_row. by rewrite lookup_insert_eq. }
  replace (get_truthy (query_row i q) "query") with (str_truthy q).
  2:{ unfold get_truthy, dict_get, query_row.
      rewrite lookup_insert_ne by discriminate. by rewrite lookup_singleton_eq. }
  by destruct (str_truthy i && str_truthy q).
Qed.

(** ** Synthetic queries *)

Lemma pretty_N_go_truthy (x : N) (c : ascii) (s : string) :
  str_truthy (pretty_N_go x (String c s)) = true.
Proof.
  revert c s. induction (N.lt_wf_0 x) as [x _ IH]; intros c s.
  destruct (decide (x = 0)%N) as [->|Hx]; [reflexivity|].
  rewrite pretty_N_go_step by lia. apply IH. apply N.div_lt; lia.
Qed.

(** The decimal numeral of a number is not the empty string. *)
Lemma str_of_nat_truthy (i : nat) : str_truthy (str_of_nat i) = true.
Proof.
  unfold str_of_nat, pretty, pretty_nat, pretty, pretty_N.
  case_decide as Hi; [reflexivity|].
  rewrite pretty_N_go_step by lia. apply pretty_N_go_truthy.
Qed.

Section GeneratorFacts.

Context {rng world : Type}.
Variable randbelow : nat -> rng -> nat * rng.
Variable completion :
  string -> conversation -> world -> outcome (option string) * world.
Variable environ : gmap string string.

(** What [random.choice] returns is an item of the sequence. *)
Lemma choice_returns (seq : list string) g x g' :
  choice randbelow seq g = (Returns x, g') -> x ∈ seq.
Proof.
  unfold choice. destruct seq as [|y seq]; [discriminate|].
  destruct (randbelow (length (y :: seq)) g) as [k g1].
  destruct ((y :: seq) !! k) as [z|] eqn:Hk; [|discriminate].
  intros H. injection H as <- _. eapply list_elem_of_lookup_2, Hk.
Qed.

Lemma choice_in_range (seq : list string) g :
  seq <> [] ->
  ((randbelow (length seq) g).1 < length seq)%nat ->
  exists x, choice randbelow seq g = (Returns x, (randbelow (length seq) g).2).
Proof.
  intros Hne Hlt. unfold choice. destruct seq as [|y seq]; [congruence|].
  destruct (randbelow (length (y :: seq)) g) as [k g1]. cbn [fst snd] in *.
  destruct (lookup_lt_is_Some_2 (y :: seq) k Hlt) as [x ->]. by exists x.
Qed.

Lemma generate_random_tuple_returns g t g' :
  generate_random_tuple randbelow g = (Returns t, g') -> from_lists t.
Proof.
  unfold generate_random_tuple.
  destruct (choice randbelow CUISINE_TYPES g) as [[c|] g1] eqn:Hc; [|discriminate].
  destruct (choice randbelow MEAL_TYPES g1) as [[m|] g2] eqn:Hm; [|discriminate].
  destruct (choice randbelow DIETARY_REQUIREMENTS g2) as [[d|] g3] eqn:Hd; [|discriminate].
  intros H. injection H as <- _.
  repeat split; cbn [fst snd]; eapply choice_returns; eassumption.
Qed.

Lemma generate_tuples_loop_returns count g tuples g' :
  generate_tuples_loop randbelow count g = (Returns tuples, g') ->
  length tuples = count /\ Forall from_lists tuples.
Proof.
  revert g tuples g'. induction count as [|count IH]; intros g tuples g' H.
  - injection H as <- _. split; [reflexivity | constructor].
  - cbn [generate_tuples_loop] in H.
    destruct (generate_random_tuple randbelow g) as [[t|] g1] eqn:Ht; [|discriminate].
    destruct (generate_tuples_loop randbelow count g1) as [[ts|] g2] eqn:Hts;
      [|discriminate].
    injection H as <- _. destruct (IH _ _ _ Hts) as [Hlen Hall].
    split; [cbn; congruence|].
    constructor; [eapply generate_random_tuple_returns; eassumption | exact Hall].
Qed.

Hypothesis randbelow_below :
  forall n g, (0 < n)%nat -> ((randbelow n g).1 < n)%nat.

Lemma generate_random_tuple_total g :
  exists t g', generate_random_tuple randbelow g = (Returns t, g').
Proof.
  unfold generate_random_tuple.
  destruct (choice_in_range CUISINE_TYPES g) as [c ->];
    [discriminate | apply randbelow_below; cbn; lia |].
  destruct (choice_in_range MEAL_TYPES (randbelow (length CUISINE_TYPES) g).2)
    as [m ->]; [discriminate | apply randbelow_below; cbn; lia |].
  destruct (choice_in_range DIETARY_REQUIREMENTS
              (randbelow (length MEAL_TYPES) (randbelow (length CUISINE_TYPES) g).2).2)
    as [d ->]; [discriminate | apply randbelow_below; cbn; lia |].
  eauto.
Qed.

Lemma generate_tuples_loop_total count g :
  exists tuples g', generate_tuples_loop randbelow count g = (Returns tuples, g').
Proof.
  revert g. induction count as [|count IH]; intros g; [by eexists _, _|].
  cbn [generate_tuples_loop].
  destruct (generate_random_tuple_total g) as (t & g1 & ->).
  destruct (IH g1) as (ts & g2 & ->). by eexists _, _.
Qed.

(** X11: with a generator whose draws are below the bound it is given,
    [generate_tuples n] returns [n] tuples, none for a negative [n], and
    each tuple holds a cuisine, a meal and a dietary requirement of the
    three lists of the module. *)
Theorem generate_tuples_from_lists (n : Z) g :
  exists tuples g',
    generate_tuples randbelow n g = (Returns tuples, g') /\
    length tuples = Z.to_nat n /\
    Forall from_lists tuples.
Proof.
  unfold generate_tuples.
  destruct (generate_tuples_loop_total (Z.to_nat n) g) as (tuples & g' & H).
  exists tuples, g'. split; [exact H|].
  eapply generate_tuples_loop_returns, H.
Qed.

(** X12: the dietary requirement of a generated tuple is never absent
    or empty, so the prompt made for it always names the requirement;
    the wording for no restriction is not used for generated tuples. *)
Theorem generated_prompt_names_requirement (n : Z) g tuples g' cuisine meal dietary :
  generate_tuples randbelow n g = (Returns tuples, g') ->
  (cuisine, meal, dietary) ∈ tuples ->
  dietary_text (Some dietary) = "with a " +:+ dietary +:+ " dietary requirement" /\
  dietary_text (Some dietary) <> dietary_text None.
Proof.
  intros Hgen Hin. apply generate_tuples_loop_returns in Hgen as [_ Hall].
  apply (proj1 (Forall_forall _ _) Hall) in Hin as (_ & _ & Hd).
  cbn [fst snd] in Hd. unfold DIETARY_REQUIREMENTS in Hd.
  repeat (apply elem_of_cons in Hd as [->|Hd]; [split; [reflexivity | discriminate]|]).
  by apply elem_of_nil in Hd.
Qed.

Lemma query_tuples_returns tuples results w results' w' :
  query_tuples completion environ tuples results w = (Returns results', w') ->
  exists added, results' = results ++ added /\ queried completion environ tuples w added w'.
Proof.
  revert results w. induction tuples as [|[[c m] d] tuples IH]; intros results w H.
  - injection H as <- <-. exists []. split; [by rewrite app_nil_r | constructor].
  - cbn [query_tuples] in H. unfold generate_query_from_tuple in H.
    destruct (completion _ _ w) as [[[content|]|] w1] eqn:Hcall; try discriminate.
    destruct (IH _ _ H) as (added & -> & Hq).
    exists (synthetic c m d (str_strip content) :: added).
    split; [by rewrite <- app_assoc | econstructor; eassumption].
Qed.

Lemma queried_length tuples w results w' :
  queried completion environ tuples w results w' -> length results = length tuples.
Proof. induction 1; cbn; congruence. Qed.

(** X13: when [generate_synthetic_queries n] returns, it returns [n]
    entries in the order of the tuples drawn; the model was called once
    for each tuple, in that order, with the prompt made of the tuple, and
    each entry holds its tuple and the reply of that call without the
    white space around it. *)
Theorem generate_synthetic_queries_returns (n : Z) g w results g' w' :
  generate_synthetic_queries randbelow completion environ n (g, w)
    = (Returns results, (g', w')) ->
  exists tuples,
    generate_tuples randbelow n g = (Returns tuples, g') /\
    length results = Z.to_nat n /\
    Forall from_lists tuples /\
    queried completion environ tuples w results w'.
Proof.
  unfold generate_synthetic_queries. intros H.
  destruct (generate_tuples randbelow n g) as [[tuples|] g1] eqn:Hgen; [|discriminate].
  destruct (query_tuples completion environ tuples [] w) as [out w1] eqn:Hq.
  injection H as -> <- <-.
  destruct (query_tuples_returns _ _ _ _ _ Hq) as (added & -> & Hqueried).
  destruct (generate_tuples_loop_returns _ _ _ _ Hgen) as [Hlen Hall].
  exists tuples. split; [reflexivity|]. split; [|split; assumption].
  cbn. rewrite (queried_length _ _ _ _ Hqueried). exact Hlen.
Qed.

(** X14: a failed call is not caught: when the calls for the first
    tuples succeed and the call for the next one raises (or gives no
    content), the loop raises that fault, returns none of the entries it
    had gathered and does not call the model for the tuples that
    follow. *)
Theorem query_tuples_aborts before cuisine meal dietary after results w gathered w1 e w2 :
  queried completion environ before w gathered w1 ->
  generate_query_from_tuple completion environ cuisine meal (Some dietary) w1
    = (Raises e, w2) ->
  query_tuples completion environ (before ++ (cuisine, meal, dietary) :: after) results w
    = (Raises e, w2).
Proof.
  intros Hbefore Hfail. revert results.
  induction Hbefore as [w | c m d tuples content w w1 w1' added Hcall _ IH];
    intros results.
  - cbn [app query_tuples]. by rewrite Hfail.
  - cbn [app query_tuples]. unfold generate_query_from_tuple at 1. rewrite Hcall.
    apply IH. exact Hfail.
Qed.

End GeneratorFacts.

(** ** From the generator to the runner *)

(** With the encoder of a UTF-8 locale the file gets the rows as the
    writer made them. *)
Lemma write_query_rows_returns (encode : string -> outcome string) i
    (results : list row) (text text' : string) :
  (forall t, encode t = Returns t) ->
  write_query_rows encode i results text = (Returns (), text') ->
  text' = text +:+ query_rows i (map query_of results).
Proof.
  intros Hencode. revert i text. induction results as [|r results IH]; intros i text H.
  - injection H as <-. cbn. by rewrite append_nil_r.
  - cbn [write_query_rows] in H. unfold dict_getitem, write_encoded in H.
    destruct (r !! "query") as [q|] eqn:Hq; [|discriminate].
    rewrite Hencode in H.
    rewrite (IH _ _ H). cbn [map query_rows]. unfold query_of at 2. rewrite Hq.
    cbn [default]. by rewrite append_assoc.
Qed.

Lemma csv_run_query_rows records i (queries : list string) :
  csv_run (records, StartRecord) (query_rows i queries)
    = (records ++ query_fields i queries, StartRecord).
Proof.
  revert records i. induction queries as [|q queries IH]; intros records i.
  - cbn. by rewrite app_nil_r.
  - cbn [query_rows query_fields]. rewrite csv_run_app, csv_run_any_row, IH.
    by rewrite <- app_assoc.
Qed.

(** The file of queries as the reader of the runner sees it. *)
Lemma read_queries_query_fields i (queries : list string) :
  read_queries (DictReader (["id"; "query"] :: query_fields i queries))
    = numbered i queries.
Proof.
  cbn [DictReader]. revert i. induction queries as [|q queries IH]; intros i.
  - reflexivity.
  - cbn [query_fields numbered]. rewrite filter_cons_True by discriminate.
    cbn [map].
    change (restval ["id"; "query"] [str_of_nat i; q] ?d) with d.
    rewrite dict_zip_id_query, read_queries_query_row, IH.
    by rewrite str_of_nat_truthy.
Qed.

Lemma numbered_ids i (queries : list string) (r : row) :
  r ∈ numbered i queries ->
  exists k, (i <= k)%nat /\ r !! "id" = Some (str_of_nat k).
Proof.
  revert i. induction queries as [|q queries IH]; intros i Hr.
  - by apply elem_of_nil in Hr.
  - cbn [numbered] in Hr. apply elem_of_app in Hr as [Hr|Hr].
    + destruct (str_truthy q); [|by apply elem_of_nil in Hr].
      apply list_elem_of_singleton in Hr as ->. exists i. split; [lia|].
      unfold query_row. apply lookup_insert_eq.
    + destruct (IH _ Hr) as (k & Hk & Hid). exists k. split; [lia | exact Hid].
Qed.

(** The ids of the records are pairwise distinct. *)
Lemma numbered_ids_NoDup i (queries : list string) :
  NoDup ((fun r : row => r !! "id") <$> numbered i queries).
Proof.
  revert i. induction queries as [|q queries IH]; intros i; [constructor|].
  cbn [numbered]. destruct (str_truthy q); [|apply IH].
  cbn [app fmap list_fmap]. constructor; [|apply IH].
  intros Hin. apply list_elem_of_fmap in Hin as (r & Hid & Hr).
  destruct (numbered_ids _ _ _ Hr) as (k & Hk & Hid').
  unfold query_row in Hid. rewrite lookup_insert_eq, Hid' in Hid.
  injection Hid as Hid. unfold str_of_nat in Hid.
  apply (inj pretty) in Hid. lia.
Qed.

Section ScriptFacts.

Context {rng world : Type}.
Variable randbelow : nat -> rng -> nat * rng.
Variable completion :
  string -> conversation -> world -> outcome (option string) * world.
Variable environ : gmap string string.
Variable PROJECT_ROOT : Path.
Variable locale_encode : string -> outcome string.

(** X15: on a system whose locale encoding is UTF-8, when the generator
    script has written its file with [--generate] and [-o] and
    [read_queries] reads that file without raising, it finds one record
    for each generated query that is not empty, in the order of
    generation, with the query as generated and the position of the query
    (counted from 1, in decimal) as id; the ids are pairwise distinct.
    A query the model left empty is dropped by the reader. *)
Theorem generated_file_feeds_read_queries args st fs st' fs' out rows :
  (forall text, locale_encode text = Returns text) ->
  generate args = true ->
  output args = Some out ->
  generate_tuples_main randbelow completion environ PROJECT_ROOT locale_encode args st fs
    = (Returns (), st', fs') ->
  read_queries_file (PROJECT_ROOT ++ out) fs' = Some rows ->
  exists results,
    generate_synthetic_queries randbelow completion environ (count args) st
      = (Returns results, st') /\
    rows = numbered 1 (map query_of results) /\
    NoDup ((fun r : row => r !! "id") <$> rows).
Proof.
  intros Hutf8 Hgen Hout. unfold generate_tuples_main. rewrite Hgen, Hout.
  destruct (generate_synthetic_queries _ _ _ _ st) as [[results|e] st1] eqn:Hrun;
    [|discriminate].
  unfold open_w, write_text.
  case_decide as Habove; [discriminate|].
  case_decide as Hparent; [|discriminate].
  case_decide as Hdir; [discriminate|].
  unfold write_encoded at 1. rewrite Hutf8.
  change ("" +:+ writerow ["id"; "query"]) with (writerow ["id"; "query"]).
  destruct (write_query_rows locale_encode 1 results (writerow ["id"; "query"]))
    as [written text] eqn:Hrows.
  intros H. injection H as -> <- <-.
  apply (write_query_rows_returns _ _ _ _ _ Hutf8) in Hrows as ->.
  unfold read_queries_file, read_bytes. cbn [files].
  rewrite lookup_insert_eq.
  destruct (utf8_valid _); [|discriminate].
  destruct (csv_reader _) as [records|] eqn:Hrecords; [|discriminate].
  apply csv_reader_Returns in Hrecords as ->.
  intros Hread. injection Hread as <-.
  exists results. split; [reflexivity|].
  assert (Hrows : read_queries
                    (DictReader
                       (csv_records
                          (writerow ["id"; "query"]
                           +:+ query_rows 1 (map query_of results))))
                  = numbered 1 (map query_of results)).
  { unfold csv_records.
    rewrite csv_run_app, csv_run_any_row, csv_run_query_rows.
    cbn [app]. apply read_queries_query_fields. }
  rewrite Hrows. split; [reflexivity | apply numbered_ids_NoDup].
Qed.

End ScriptFacts.

(** ** Examples for the generator *)

Lemma counting_below n g : (0 < n)%nat -> ((counting n g).1 < n)%nat.
Proof. intros Hn. cbn. apply Nat.mod_upper_bound. lia. Qed.

Lemma generate_tuples_from_lists_witness :
  exists tuples g',
    generate_tuples counting 5 0%nat = (Returns tuples, g') /\
    length tuples = Z.to_nat 5 /\
    Forall from_lists tuples.
Proof. apply (generate_tuples_from_lists counting counting_below 5 0%nat). Defined.

Lemma generated_prompt_names_requirement_witness :
  dietary_text (Some "gluten-free") = "with a " +:+ "gluten-free" +:+ " dietary requirement" /\
  dietary_text (Some "gluten-free") <> dietary_text None.
Proof.
  apply (generated_prompt_names_requirement counting 2 0%nat
           [("Italian", "lunch", "gluten-free"); ("Japanese", "lunch", "gluten-free")]
           6%nat "Italian" "lunch" "gluten-free").
  - vm_compute. reflexivity.
  - repeat constructor.
Defined.

Lemma two_entries_generated :
  generate_synthetic_queries counting canned_model ∅ 2
    (0%nat, ["Any gluten-free Italian lunch?"; ""])
  = (Returns two_entries, (6%nat, [])).
Proof. vm_compute. reflexivity. Qed.

Lemma generate_synthetic_queries_returns_witness :
  exists tuples,
    generate_tuples counting 2 0%nat = (Returns tuples, 6%nat) /\
    length two_entries = Z.to_nat 2 /\
    Forall from_lists tuples /\
    queried canned_model ∅ tuples ["Any gluten-free Italian lunch?"; ""] two_entries [].
Proof.
  apply (generate_synthetic_queries_returns counting canned_model ∅ 2).
  exact two_entries_generated.
Defined.

Lemma query_tuples_aborts_witness :
  query_tuples canned_model ∅
    ([("Italian", "lunch", "gluten-free")]
     ++ ("Japanese", "lunch", "gluten-free") :: [("Indian", "dinner", "vegan")])
    [] ["Any gluten-free Italian lunch?"]
  = (Raises (ExceptionInstance "APIConnectionError('connection refused')"), []).
Proof.
  apply (query_tuples_aborts canned_model ∅ [("Italian", "lunch", "gluten-free")]
           "Japanese" "lunch" "gluten-free" [("Indian", "dinner", "vegan")] []
           ["Any gluten-free Italian lunch?"]
           [synthetic "Italian" "lunch" "gluten-free"
              (str_strip ("  " +:+ "Any gluten-free Italian lunch?" +:+ newline))]
           []).
  - econstructor; [reflexivity | constructor].
  - reflexivity.
Defined.

Lemma script_run :
  generate_tuples_main counting canned_model ∅ ["repo"] Returns script_args
    (0%nat, ["Any gluten-free Italian lunch?"; ""]) disk_with_data
  = (Returns (), (6%nat, []),
     (generate_tuples_main counting canned_model ∅ ["repo"] Returns script_args
        (0%nat, ["Any gluten-free Italian lunch?"; ""]) disk_with_data).2).
Proof. vm_compute. reflexivity. Qed.

Lemma script_file_read :
  read_queries_file (["repo"] ++ ["data"; "queries.csv"])
    (generate_tuples_main counting canned_model ∅ ["repo"] Returns script_args
       (0%nat, ["Any gluten-free Italian lunch?"; ""]) disk_with_data).2
  = Some [query_row "1" "Any gluten-free Italian lunch?"].
Proof. vm_compute. reflexivity. Qed.

Lemma generated_file_feeds_read_queries_witness :
  read_queries_file (["repo"] ++ ["data"; "queries.csv"])
    (generate_tuples_main counting canned_model ∅ ["repo"] Returns script_args
       (0%nat, ["Any gluten-free Italian lunch?"; ""]) disk_with_data).2
    = Some [query_row "1" "Any gluten-free Italian lunch?"] /\
  exists results,
    generate_synthetic_queries counting canned_model ∅ (count script_args)
      (0%nat, ["Any gluten-free Italian lunch?"; ""])
      = (Returns results, (6%nat, [])) /\
    [query_row "1" "Any gluten-free Italian lunch?"]
      = numbered 1 (map query_of results) /\
    NoDup ((fun r : row => r !! "id")
             <$> [query_row "1" "Any gluten-free Italian lunch?"]).
Proof.
  split; [exact script_file_read|].
  apply (generated_file_feeds_read_queries counting canned_model ∅ ["repo"] Returns
           script_args (0%nat, ["Any gluten-free Italian lunch?"; ""]) disk_with_data
           (6%nat, [])
           (generate_tuples_main counting canned_model ∅ ["repo"] Returns script_args
              (0%nat, ["Any gluten-free Italian lunch?"; ""]) disk_with_data).2
           ["data"; "queries.csv"]).
  - reflexivity.
  - reflexivity.
  - reflexivity.
  - exact script_run.
  - exact script_file_read.
Defined.

(** ** What a record tells *)

Section Indistinguishable.

Context {world : Type}.
Variables failing replying : conversation -> world -> outcome conversation * world.

(** X16: a record does not tell a fault from a reply: the dispatch of
    a query for which the adapter raises an Exception returns the same
    record as the dispatch for which the adapter replies with the text
    "Error: " followed by the repr of that Exception. *)
Theorem fault_reads_like_reply query_id query w e w1 history w2 :
  failing [Turn "user" query] w = (Raises e, w1) ->
  is_Exception e = true ->
  replying [Turn "user" query] w = (Returns history, w2) ->
  last history = Some (Turn "assistant" ("Error: " +:+ repr e)) ->
  (process_query failing query_id query w).1
    = (process_query replying query_id query w).1.
Proof.
  intros Hfail He Hreply Hlast.
  rewrite (process_query_raised _ _ _ _ _ _ Hfail), He.
  rewrite (process_query_answered _ _ _ _ _ _ Hreply).
  rewrite (classify_assistant _ _ _ _ Hlast); reflexivity.
Qed.

End Indistinguishable.

Lemma fault_reads_like_reply_witness :
  (process_query canned "1" "vegan breakfast?" []).1
    = (process_query apologetic "1" "vegan breakfast?" []).1.
Proof.
  apply (fault_reads_like_reply canned apologetic "1" "vegan breakfast?" []
           (ExceptionInstance "RuntimeError('service unavailable')") []
           [Turn "user" "vegan breakfast?";
            Turn "assistant" "Error: RuntimeError('service unavailable')"] []);
    reflexivity.
Defined.

(** ** From one run to the next *)

Lemma read_queries_dict_of (results : list ResultRecord) :
  read_queries (map dict_of results)
    = map dict_of
        (List.filter
           (fun r => str_truthy (result_id r) && str_truthy (result_query r)) results).
Proof.
  unfold read_queries. induction results as [|[[i q] r] results IH]; [reflexivity|].
  cbn [map List.filter].
  replace (get_truthy (dict_of (i, q, r)) "id") with (str_truthy i).
  2:{ unfold get_truthy, dict_get, dict_of. cbn [fst snd].
      rewrite !lookup_insert_ne by discriminate. by rewrite lookup_insert_eq. }
  replace (get_truthy (dict_of (i, q, r)) "query") with (str_truthy q).
  2:{ unfold get_truthy, dict_get, dict_of. cbn [fst snd].
      rewrite lookup_insert_ne by discriminate. by rewrite lookup_insert_eq. }
  unfold result_id, result_query. cbn [fst snd].
  destruct (str_truthy i && str_truthy q); cbn [map]; by rewrite IH.
Qed.

Lemma DictReader_tabular (results : list ResultRecord) :
  DictReader (["id"; "query"; "response"] :: map fields_of results)
    = map dict_of results.
Proof.
  cbn [DictReader]. induction results as [|[[i q] r] results IH]; [reflexivity|].
  cbn [map]. rewrite filter_cons_True by discriminate. cbn [map].
  rewrite IH. reflexivity.
Qed.

(** X17: the tabular file of a run can be the input of another: when
    [read_queries] reads it without raising, it gives one row for each
    record of the batch that has an id and a query, in the order of the
    batch, with the id, the query and the response of the record under
    the columns of these names. *)
Theorem tabular_file_feeds_read_queries output_path results fs fs' csv_path rows :
  write_results output_path results fs = (Returns (), fs') ->
  with_suffix output_path ".csv" = Returns csv_path ->
  read_queries_file csv_path fs' = Some rows ->
  rows
    = map dict_of
        (List.filter
           (fun r => str_truthy (result_id r) && str_truthy (result_query r))
           results).
Proof.
  intros Hwrite Hcsv.
  destruct (write_results_returns _ _ _ _ Hwrite) as (csv_path' & Hcsv' & Hfiles).
  rewrite Hcsv in Hcsv'. injection Hcsv' as <-.
  unfold read_queries_file, read_bytes. rewrite Hfiles, lookup_insert_eq.
  destruct (utf8_valid _); [|discriminate].
  destruct (csv_reader _) as [records|] eqn:Hrecords; [|discriminate].
  apply csv_reader_Returns in Hrecords as ->.
  intros Hread. injection Hread as <-.
  rewrite csv_records_rows, DictReader_tabular. apply read_queries_dict_of.
Qed.

Lemma tabular_file_read :
  read_queries_file ["results"; "results_20250101_120000.csv"]
    (write_results (results_path "20250101_120000") two_results empty_disk).2
  = Some (map dict_of two_results).
Proof. vm_compute. reflexivity. Qed.

Lemma tabular_file_feeds_read_queries_witness :
  read_queries_file ["results"; "results_20250101_120000.csv"]
    (write_results (results_path "20250101_120000") two_results empty_disk).2
    = Some (map dict_of two_results) /\
  map dict_of two_results
  = map dict_of
      (List.filter
         (fun r => str_truthy (result_id r) && str_truthy (result_query r))
         two_results).
Proof.
  split; [exact tabular_file_read|].
  apply (tabular_file_feeds_read_queries (results_path "20250101_120000")
           two_results empty_disk
           (write_results (results_path "20250101_120000") two_results empty_disk).2
           ["results"; "results_20250101_120000.csv"]).
  - exact write_two_results.
  - vm_compute. reflexivity.
  - exact tabular_file_read.
Defined.

(** ** The generator with a model that answers *)

Section GeneratorTotal.

Context {rng world : Type}.
Variable randbelow : nat -> rng -> nat * rng.
Variable completion :
  string -> conversation -> world -> outcome (option string) * world.
Variable environ : gmap string string.

Hypothesis randbelow_below :
  forall n g, (0 < n)%nat -> ((randbelow n g).1 < n)%nat.

Hypothesis completion_answers :
  forall model messages w,
    exists content w', completion model messages w = (Returns (Some content), w').

Lemma query_tuples_total tuples results w :
  exists results' w',
    query_tuples completion environ tuples results w = (Returns results', w').
Proof.
  revert results w. induction tuples as [|[[c m] d] tuples IH]; intros results w.
  - by eexists _, _.
  - cbn [query_tuples]. unfold generate_query_from_tuple.
    destruct (completion_answers (MODEL_NAME environ)
                [Turn "user" (prompt_of c m (Some d))] w) as (content & w1 & ->).
    apply IH.
Qed.

(** X18: with a generator whose draws are below the bound it is given
    and a model that answers every call with a text, the generation of
    [n] synthetic queries returns, with [n] entries (none for a negative
    [n]); nothing else in it can fail. *)
Theorem generate_synthetic_queries_total (n : Z) st :
  exists results st',
    generate_synthetic_queries randbelow completion environ n st
      = (Returns results, st') /\
    length results = Z.to_nat n.
Proof.
  destruct st as [g w]. unfold generate_synthetic_queries, generate_tuples.
  destruct (generate_tuples_loop_total randbelow randbelow_below (Z.to_nat n) g)
    as (tuples & g' & Hgen).
  rewrite Hgen.
  destruct (query_tuples_total tuples [] w) as (results & w' & Hq). rewrite Hq.
  exists results, (g', w'). split; [reflexivity|].
  destruct (query_tuples_returns _ _ _ _ _ _ _ Hq) as (added & -> & Hqueried).
  cbn. rewrite (queried_length _ _ _ _ _ _ Hqueried).
  eapply generate_tuples_loop_returns, Hgen.
Qed.

End GeneratorTotal.

Lemma steady_model_answers model messages (w : nat) :
  exists content w', steady_model model messages w = (Returns (Some content), w').
Proof. by eexists _, _. Qed.

Lemma generate_synthetic_queries_total_witness :
  exists results st',
    generate_synthetic_queries counting steady_model ∅ 3 (0%nat, 0%nat)
      = (Returns results, st') /\
    length results = Z.to_nat 3.
Proof.
  apply (generate_synthetic_queries_total counting steady_model ∅
           counting_below steady_model_answers 3 (0%nat, 0%nat)).
Defined.
